(** * Peripheral examples: SPI-slave USART with interrupts, PWM timer fed by LDMA

    Shallow embedding of
      - series1/usart/spi_slave_interrupt/src/main_s1_xg1_xg13_xg14.c
      - series2/timer/timer_pwm_dma/src/main.c
    Program variables are machine fields, C arrays are lists indexed through a
    bounds check against their declared size, [uint32_t]/[uint16_t]/[uint8_t]
    arithmetic is [Z] arithmetic with the wrap-around written out, and every
    memory or register access and every SDK call is recorded in a trace. *)

From Stdlib Require Import ZArith List Lia Bool String.
From stdpp Require Import base list.
Import ListNotations.
Local Open Scope Z_scope.

(** ** A state, trace and abort monad for straight-line C with array checks *)

Module Exec.

(** [Ok a s t]: the code returned [a] in state [s] after the events [t].
    [Fault f t]: it left the defined behaviour of C with [f].
    [Halt s t]: the core went to sleep and nothing woke it again. *)
Inductive result (St Ev Flt A : Type) : Type :=
| Ok (a : A) (s : St) (t : list Ev)
| Fault (f : Flt) (t : list Ev)
| Halt (s : St) (t : list Ev).
Arguments Ok {St Ev Flt A} a s t.
Arguments Fault {St Ev Flt A} f t.
Arguments Halt {St Ev Flt A} s t.

Definition M (St Ev Flt A : Type) : Type := St -> result St Ev Flt A.

Section Ops.
Context {St Ev Flt : Type}.

Definition ret {A} (a : A) : M St Ev Flt A := fun s => Ok a s [].

Definition prefix {A} (t : list Ev) (r : result St Ev Flt A) : result St Ev Flt A :=
  match r with
  | Ok a s u => Ok a s (t ++ u)
  | Fault f u => Fault f (t ++ u)
  | Halt s u => Halt s (t ++ u)
  end.

Definition bind {A B} (x : M St Ev Flt A) (k : A -> M St Ev Flt B) : M St Ev Flt B :=
  fun s =>
    match x s with
    | Ok a s1 t => prefix t (k a s1)
    | Fault f t => Fault f t
    | Halt s1 t => Halt s1 t
    end.

Definition get : M St Ev Flt St := fun s => Ok s s [].
Definition modify (f : St -> St) : M St Ev Flt unit := fun s => Ok tt (f s) [].
Definition halt {A} : M St Ev Flt A := fun s => Halt s [].

(** [for (i = ...; ...; i++) body(i)], one run of the body per element *)
Fixpoint for_each {I} (idxs : list I) (body : I -> M St Ev Flt unit) : M St Ev Flt unit :=
  match idxs with
  | [] => ret tt
  | i :: rest => bind (body i) (fun _ => for_each rest body)
  end.

(** Rewrites the events of a run, leaving its outcome as it is. *)
Definition relabel {A} (g : Ev -> Ev) (x : M St Ev Flt A) : M St Ev Flt A :=
  fun s =>
    match x s with
    | Ok a s1 t => Ok a s1 (map g t)
    | Fault f t => Fault f (map g t)
    | Halt s1 t => Halt s1 (map g t)
    end.

Definition trace_of {A} (r : result St Ev Flt A) : list Ev :=
  match r with Ok _ _ t | Fault _ t | Halt _ t => t end.

Definition returns {A} (r : result St Ev Flt A) : bool :=
  match r with Ok _ _ _ => true | _ => false end.


(** every event of every run of [x] satisfies [P] *)
Definition emits {A} (P : Ev -> Prop) (x : M St Ev Flt A) : Prop :=
  forall s, Forall P (trace_of (x s)).
End Ops.

End Exec.

Notation "x <- c1 ;; c2" := (Exec.bind c1 (fun x => c2))
  (at level 100, c1 at next level, right associativity).
Notation "c1 ;;; c2" := (Exec.bind c1 (fun _ => c2))
  (at level 100, right associativity).

Definition wrap8 (z : Z) : Z := z mod 2 ^ 8.
Definition wrap16 (z : Z) : Z := z mod 2 ^ 16.
Definition wrap32 (z : Z) : Z := z mod 2 ^ 32.

(** [a[i]] on a list that stands for a C array; the access itself is checked
    against the declared size before this is used. *)
Definition elt (a : list Z) (i : Z) : Z := default 0 (a !! Z.to_nat i).
Definition set_elt (a : list Z) (i : Z) (v : Z) : list Z := <[Z.to_nat i := v]> a.

(** ** series1/usart/spi_slave_interrupt *)

Module SpiSlave.
Import Exec.

Definition US1CS_PIN : Z := 9.
Definition BUFLEN : Z := 10.

(** What the program reads and writes directly: its three globals and the
    two USART1 data registers. *)
Inductive cell : Type :=
| Outbuf (i : Z)
| Inbuf (i : Z)
| Bufpos
| USART1_RXDATA
| USART1_TXDATA.

Inductive sdk_call : Type :=
| GPIO_PinOutSet            (* (TIMEPORT, TIMEPIN) *)
| GPIO_PinOutClear          (* (TIMEPORT, TIMEPIN) *)
| GPIO_IntClear (flags : Z)
| GPIO_IntEnable (flags : Z)
| GPIO_IntDisable (flags : Z)
| USART_Enable (on : bool)  (* (USART1, usartEnable / usartDisable) *)
| USART_IntEnable           (* (USART1, USART_IEN_RXDATAV) *)
| USART_IntDisable          (* (USART1, USART_IEN_RXDATAV) *)
| EMU_EnterEM1
| Setup (what : string).    (* start-up code, touches no program variable *)

Inductive isr : Type := GPIO_ODD | USART1_RX.

Inductive event : Type :=
| Load (c : cell) (v : Z)
| Store (c : cell) (v : Z)
| Call (f : sdk_call)
| InIsr (h : isr) (e : event).

Inductive fault : Type := OutOfBounds (c : cell).

Record machine : Type := mkMachine {
  outbuf : list Z;     (* uint8_t outbuf[BUFLEN] *)
  inbuf : list Z;      (* uint8_t inbuf[BUFLEN] *)
  bufpos : Z;          (* uint32_t bufpos *)
  rxdata : Z;          (* USART1->RXDATA *)
  txdata : Z;          (* USART1->TXDATA *)
  timepin : bool       (* level of TIMEPORT/TIMEPIN *)
}.

Definition M := Exec.M machine event fault.

Definition in_bounds (c : cell) : bool :=
  match c with
  | Outbuf i | Inbuf i => (0 <=? i) && (i <? BUFLEN)
  | _ => true
  end.

Definition read_cell (c : cell) (m : machine) : Z :=
  match c with
  | Outbuf i => elt (outbuf m) i
  | Inbuf i => elt (inbuf m) i
  | Bufpos => bufpos m
  | USART1_RXDATA => rxdata m
  | USART1_TXDATA => txdata m
  end.

Definition write_cell (c : cell) (v : Z) (m : machine) : machine :=
  match c with
  | Outbuf i => mkMachine (set_elt (outbuf m) i v) (inbuf m) (bufpos m) (rxdata m) (txdata m) (timepin m)
  | Inbuf i => mkMachine (outbuf m) (set_elt (inbuf m) i v) (bufpos m) (rxdata m) (txdata m) (timepin m)
  | Bufpos => mkMachine (outbuf m) (inbuf m) v (rxdata m) (txdata m) (timepin m)
  | USART1_RXDATA => mkMachine (outbuf m) (inbuf m) (bufpos m) v (txdata m) (timepin m)
  | USART1_TXDATA => mkMachine (outbuf m) (inbuf m) (bufpos m) (rxdata m) v (timepin m)
  end.

Definition set_timepin (b : bool) (m : machine) : machine :=
  mkMachine (outbuf m) (inbuf m) (bufpos m) (rxdata m) (txdata m) b.

(** An access outside the declared array is undefined behaviour in C: the
    run stops with [OutOfBounds]. *)
Definition load (c : cell) : M Z :=
  fun m => if in_bounds c then Ok (read_cell c m) m [Load c (read_cell c m)]
           else Fault (OutOfBounds c) [].

Definition store (c : cell) (v : Z) : M unit :=
  fun m => if in_bounds c then Ok tt (write_cell c v m) [Store c v]
           else Fault (OutOfBounds c) [].

(** SDK calls are recorded; the two pin calls also move the activity pin. *)
Definition call (f : sdk_call) : M unit :=
  fun m =>
    Ok tt (match f with
           | GPIO_PinOutSet => set_timepin true m
           | GPIO_PinOutClear => set_timepin false m
           | _ => m
           end) [Call f].

(** *** The interrupt handlers *)

(** [GPIO_ODD_IRQHandler] (US1CS_PIN is odd): clears the falling-edge flag. *)
Definition GPIO_ODD_IRQHandler : M unit :=
  call (GPIO_IntClear (Z.shiftl 1 US1CS_PIN)).

(** [USART1_RX_IRQHandler]. In [inbuf[bufpos++] = USART1->RXDATA] C leaves
    the order of the two stores open; the increment is put first here. *)
Definition USART1_RX_IRQHandler : M unit :=
  call GPIO_PinOutSet ;;;
  (* inbuf[bufpos++] = USART1->RXDATA; *)
  r <- load USART1_RXDATA ;;
  p <- load Bufpos ;;
  store Bufpos (wrap32 (p + 1)) ;;;
  store (Inbuf p) (wrap8 r) ;;;
  (* if (bufpos < BUFLEN) USART1->TXDATA = outbuf[bufpos]; *)
  q <- load Bufpos ;;
  (if q <? BUFLEN
   then v <- load (Outbuf q) ;; store USART1_TXDATA v
   else ret tt) ;;;
  call GPIO_PinOutClear.

(** *** Interrupts taken while the core sleeps *)

(** What the hardware raises: the CS falling edge, or a received frame whose
    value [r] is then what USART1->RXDATA reads. *)
Inductive irq : Type := IrqGpio | IrqRx (r : Z).

Definition in_isr {A} (h : isr) (x : M A) : M A := relabel (InIsr h) x.

Definition dispatch (q : irq) : M unit :=
  match q with
  | IrqGpio => in_isr GPIO_ODD GPIO_ODD_IRQHandler
  | IrqRx r => modify (write_cell USART1_RXDATA r) ;;;
               in_isr USART1_RX USART1_RX_IRQHandler
  end.

(** [EMU_EnterEM1()]: the core sleeps; [wake = Some qs] are the interrupts
    served before the call returns, [None] means nothing wakes it. Interrupts
    are taken while the core sleeps; one arriving between two statements of
    [main] counts to the next sleep. For the wait loop, where the place of an
    interrupt matters, [wait_all_received_unmasked] below also serves them
    between the test and the sleep. *)
Definition EMU_EnterEM1_woken (wake : option (list irq)) : M unit :=
  call EMU_EnterEM1 ;;;
  match wake with
  | Some qs => for_each qs dispatch
  | None => halt
  end.

(** *** One pass of the body of [while (1)] in [main] *)

(** lines 229-244 *)
Definition round_prepare : M unit :=
  for_each (seqZ 0 BUFLEN)
    (fun i => store (Inbuf i) 0 ;;; store (Outbuf i) (wrap8 i)) ;;;
  store Bufpos 0 ;;;
  call (GPIO_IntClear (Z.shiftl 1 US1CS_PIN)) ;;;
  call (GPIO_IntEnable (Z.shiftl 1 US1CS_PIN)) ;;;
  call GPIO_PinOutClear.

(** lines 253-268 *)
Definition round_start : M unit :=
  call GPIO_PinOutSet ;;;
  call (USART_Enable true) ;;;
  call USART_IntEnable ;;;
  (* USART1->TXDATA = outbuf[bufpos]; *)
  p <- load Bufpos ;;
  v <- load (Outbuf p) ;;
  store USART1_TXDATA v ;;;
  call GPIO_PinOutClear.

(** lines 270-272: [while (bufpos < BUFLEN) EMU_EnterEM1();]
    [script] lists, per sleep, the interrupts served during it. With the
    script used up the core stays asleep. *)
Fixpoint wait_all_received (script : list (list irq)) : M unit :=
  p <- load Bufpos ;;
  if p <? BUFLEN then
    match script with
    | w :: rest => EMU_EnterEM1_woken (Some w) ;;; wait_all_received rest
    | [] => EMU_EnterEM1_woken None
    end
  else ret tt.

(** lines 274-284 *)
Definition round_finish : M unit :=
  call GPIO_PinOutSet ;;;
  call USART_IntDisable ;;;
  call (GPIO_IntDisable (Z.shiftl 1 US1CS_PIN)) ;;;
  call (USART_Enable false).

Definition main_round (cs : option (list irq)) (script : list (list irq)) : M unit :=
  round_prepare ;;;
  EMU_EnterEM1_woken cs ;;;        (* wait for falling edge on US1CS_PIN *)
  round_start ;;;
  wait_all_received script ;;;
  round_finish.

(** *** Start-up and the whole of [main] *)

Definition setup (what : string) : M unit := call (Setup what).

Definition initGPIO : M unit :=
  setup "CMU_ClockEnable(cmuClock_GPIO, true)" ;;;
  setup "GPIO_PinModeSet(US1MOSI_PORT, US1MOSI_PIN, gpioModeInput, 0)" ;;;
  setup "GPIO_PinModeSet(US1MISO_PORT, US1MISO_PIN, gpioModePushPull, 0)" ;;;
  setup "GPIO_PinModeSet(US1CLK_PORT, US1CLK_PIN, gpioModeInput, 0)" ;;;
  setup "GPIO_PinModeSet(US1CS_PORT, US1CS_PIN, gpioModeInput, 1)" ;;;
  setup "GPIO_ExtIntConfig(US1CS_PORT, US1CS_PIN, US1CS_PIN, false, true, false)" ;;;
  setup "NVIC_ClearPendingIRQ(GPIO_ODD_IRQn)" ;;;
  setup "NVIC_EnableIRQ(GPIO_ODD_IRQn)" ;;;
  setup "GPIO_PinModeSet(TIMEPORT, TIMEPIN, gpioModePushPull, 0)".

Definition initUSART1 : M unit :=
  setup "CMU_ClockEnable(cmuClock_USART1, true)" ;;;
  setup "USART_InitSync(USART1, &init)" ;;;
  setup "USART1->ROUTELOC0 = ..." ;;;
  setup "USART1->ROUTEPEN = ..." ;;;
  setup "NVIC_ClearPendingIRQ(USART1_RX_IRQn)" ;;;
  setup "NVIC_EnableIRQ(USART1_RX_IRQn)".

Definition main_init : M unit :=
  setup "CHIP_Init()" ;;;
  setup "EMU_DCDCInit(&dcdcInit)" ;;;
  setup "CMU_HFXOInit(&hfxoInit)" ;;;
  setup "CMU_ClockSelectSet(cmuClock_HF, cmuSelect_HFXO)" ;;;
  setup "CMU_UpdateWaitStates(SystemCoreClockGet(), 0)" ;;;
  initGPIO ;;;
  initUSART1 ;;;
  call GPIO_PinOutSet.

(** [main]: start-up, then [while (1)]. [rounds] gives, for each pass the
    environment drives, the interrupts of its sleeps; in the pass after the
    last one nothing wakes the core from the wait for chip select. *)
Definition main (rounds : list (option (list irq) * list (list irq))) : M unit :=
  main_init ;;;
  for_each rounds (fun r => main_round (fst r) (snd r)) ;;;
  round_prepare ;;;
  EMU_EnterEM1_woken None.

(** *** Reading traces *)

Inductive variable : Type := V_outbuf | V_inbuf | V_bufpos | V_RXDATA | V_TXDATA.

Definition var_of (c : cell) : variable :=
  match c with
  | Outbuf _ => V_outbuf
  | Inbuf _ => V_inbuf
  | Bufpos => V_bufpos
  | USART1_RXDATA => V_RXDATA
  | USART1_TXDATA => V_TXDATA
  end.

(** the event with its handler marks removed *)
Fixpoint bare (e : event) : event :=
  match e with InIsr _ e' => bare e' | _ => e end.

Definition by_isr (e : event) : bool :=
  match e with InIsr _ _ => true | _ => false end.

(** the values written to USART1->TXDATA, in order *)
Definition tx_writes (t : list event) : list Z :=
  flat_map (fun e => match bare e with Store USART1_TXDATA v => [v] | _ => [] end) t.

(** the array cells touched, in order *)
Definition array_accesses (t : list event) : list cell :=
  flat_map (fun e => match bare e with
                     | Load (Outbuf i) _ | Store (Outbuf i) _ => [Outbuf i]
                     | Load (Inbuf i) _ | Store (Inbuf i) _ => [Inbuf i]
                     | _ => []
                     end) t.

Definition well_sized (m : machine) : Prop :=
  length (outbuf m) = Z.to_nat BUFLEN /\ length (inbuf m) = Z.to_nat BUFLEN.


(** *** What a run of the receive handler amounts to *)

(** The machine and the trace the receive handler leaves when the buffer
    position is inside the buffer. *)
Definition handler_post (m : machine) : machine :=
  let p := bufpos m in
  mkMachine (outbuf m) (set_elt (inbuf m) p (wrap8 (rxdata m))) (p + 1) (rxdata m)
    (if p + 1 <? BUFLEN then elt (outbuf m) (p + 1) else txdata m) false.

Definition handler_trace (m : machine) : list event :=
  let p := bufpos m in
  [Call GPIO_PinOutSet; Load USART1_RXDATA (rxdata m); Load Bufpos p;
   Store Bufpos (p + 1); Store (Inbuf p) (wrap8 (rxdata m)); Load Bufpos (p + 1)]
  ++ (if p + 1 <? BUFLEN
      then [Load (Outbuf (p + 1)) (elt (outbuf m) (p + 1));
            Store USART1_TXDATA (elt (outbuf m) (p + 1))]
      else [])
  ++ [Call GPIO_PinOutClear].

(** the same for the frames [rs] received one after the other *)
Fixpoint rx_post (rs : list Z) (m : machine) : machine :=
  match rs with
  | [] => m
  | r :: rest => rx_post rest (handler_post (write_cell USART1_RXDATA r m))
  end.

Fixpoint rx_trace (rs : list Z) (m : machine) : list event :=
  match rs with
  | [] => []
  | r :: rest =>
      let m1 := write_cell USART1_RXDATA r m in
      map (InIsr USART1_RX) (handler_trace m1) ++ rx_trace rest (handler_post m1)
  end.

(** The buffer-advance step of the receive handler at [m], with [p] the
    buffer position on entry. *)
Definition advance_step (m : machine) : Prop :=
  let p := bufpos m in
  exists m' t,
    USART1_RX_IRQHandler m = Ok tt m' t /\
    elt (inbuf m') p = wrap8 (rxdata m) /\
    bufpos m' = p + 1 /\
    tx_writes t = (if p + 1 <? BUFLEN then [elt (outbuf m) (p + 1)] else []).

(** A machine in which all [BUFLEN] bytes of a round have been received and
    the master clocks one more. *)
Definition after_last_byte : machine :=
  mkMachine [0; 1; 2; 3; 4; 5; 6; 7; 8; 9] [0; 0; 0; 0; 0; 0; 0; 0; 0; 0] 10 90 9 false.

(** A machine whose [bufpos] holds the largest [uint32_t]. *)
Definition at_uint32_max : machine :=
  mkMachine [0; 1; 2; 3; 4; 5; 6; 7; 8; 9] [0; 0; 0; 0; 0; 0; 0; 0; 0; 0]
    (2 ^ 32 - 1) 90 9 false.

(** a machine in the middle of a round *)
Definition mid_round : machine :=
  mkMachine [0; 1; 2; 3; 4; 5; 6; 7; 8; 9] [17; 18; 19; 0; 0; 0; 0; 0; 0; 0] 3 90 3 false.

(** the machine [round_prepare] leaves *)
Definition prepared (m : machine) : machine :=
  mkMachine (seqZ 0 BUFLEN) (replicate (Z.to_nat BUFLEN) 0) 0 (rxdata m) (txdata m) false.


(** What the wait loop itself does: it reads [bufpos] and sleeps. *)
Definition wait_discipline (e : event) : Prop :=
  match e with
  | Load c _ => c = Bufpos
  | Store _ _ => False
  | Call f => f = EMU_EnterEM1
  | InIsr _ _ => True
  end.

(** What [main] and the handlers may do to the shared variables. *)
Definition gpio_handler_event (e : event) : Prop := exists f, e = Call f.

Definition rx_handler_event (e : event) : Prop :=
  match e with
  | Store c _ => var_of c = V_inbuf \/ var_of c = V_bufpos \/ var_of c = V_TXDATA
  | InIsr _ _ => False
  | _ => True
  end.

Definition sharing_discipline (e : event) : Prop :=
  match e with
  | Load c _ => var_of c = V_bufpos \/ var_of c = V_outbuf
  | Store c v => var_of c <> V_bufpos \/ v = 0
  | Call _ => True
  | InIsr GPIO_ODD e' => gpio_handler_event e'
  | InIsr USART1_RX e' => rx_handler_event e'
  end.

(** *** The wait loop with the interrupts the source does not mask *)





(** *** Where [main] stores to [bufpos] *)

(** whether the USART is enabled after the events [t] of [main], when it is
    [on] before them: [USART_Enable(USART1, usartEnable)] opens a transfer
    round and [USART_Enable(USART1, usartDisable)] closes it *)
Fixpoint usart_enabled_after (on : bool) (t : list event) : bool :=
  match t with
  | [] => on
  | Call (USART_Enable b) :: t' => usart_enabled_after b t'
  | _ :: t' => usart_enabled_after on t'
  end.

(** Every store of [main] itself to [bufpos] in [t] is a reset to 0 made
    while the USART is disabled, that is before a transfer round is opened
    and not during one. Events of the handlers are passed over. *)
Fixpoint resets_before_round (on : bool) (t : list event) : Prop :=
  match t with
  | [] => True
  | Call (USART_Enable b) :: t' => resets_before_round b t'
  | Store Bufpos v :: t' => on = false /\ v = 0 /\ resets_before_round on t'
  | _ :: t' => resets_before_round on t'
  end.

(** [x] keeps this discipline in every run, and takes the USART from [on] to
    [on'] when it returns. *)
Definition keeps {A} (on on' : bool) (x : M A) : Prop :=
  forall m,
    resets_before_round on (trace_of (x m)) /\
    (returns (x m) = true -> usart_enabled_after on (trace_of (x m)) = on').

(** *** What a sequence of interrupts amounts to *)

(** the received frames among the interrupts [qs], in order *)
Definition rx_frames (qs : list irq) : list Z :=
  flat_map (fun q => match q with IrqRx r => [r] | IrqGpio => [] end) qs.

(** How a run ended, and what it wrote to USART1->TXDATA. *)
Inductive outcome : Type :=
| Returned (m : machine)
| Faulted (f : fault)
| Asleep (m : machine).

Definition observe {A} (r : result machine event fault A) : outcome * list Z :=
  match r with
  | Ok _ m t => (Returned m, tx_writes t)
  | Fault f t => (Faulted f, tx_writes t)
  | Halt m t => (Asleep m, tx_writes t)
  end.


(** a machine with a round half done: three frames in, [bufpos = 3] *)
Definition three_received : machine :=
  mkMachine [0; 1; 2; 3; 4; 5; 6; 7; 8; 9] [17; 18; 19; 0; 0; 0; 0; 0; 0; 0] 3 19 3 false.

End SpiSlave.

(** ** series2/timer/timer_pwm_dma *)

Module TimerPwmDma.
Import Exec.

Definition PWM_FREQ : Z := 1000.
Definition BUFFER_SIZE : Z := 11.

(** [static const uint16_t dutyCyclePercentages[BUFFER_SIZE]] *)
Definition dutyCyclePercentages : list Z :=
  [0; 10; 20; 30; 40; 50; 60; 70; 80; 90; 100].

Inductive cell : Type :=
| Buffer (i : Z)
| DutyCyclePercentages (i : Z).

(** The two addresses the program hands to the LDMA. *)
Inductive address : Type :=
| Addr_buffer              (* &buffer *)
| Addr_TIMER0_CC0_OCB.     (* &TIMER0->CC[0].OCB *)

Inductive LDMA_CtrlSize_t : Type := ldmaCtrlSizeByte | ldmaCtrlSizeHalf | ldmaCtrlSizeWord.
Inductive LDMA_CtrlSrcInc_t : Type := ldmaCtrlSrcIncOne | ldmaCtrlSrcIncNone.
Inductive LDMA_CtrlDstInc_t : Type := ldmaCtrlDstIncOne | ldmaCtrlDstIncNone.
Inductive LDMA_LinkMode_t : Type := ldmaLinkModeAbs | ldmaLinkModeRel.
Inductive LDMA_PeripheralSignal_t : Type :=
| ldmaPeripheralSignal_NONE
| ldmaPeripheralSignal_TIMER0_CC0.

(** The types below are those of em_ldma.h, which is not under src/. Of
    [LDMA_Descriptor_t.xfer] the fields are kept that the program sets or that
    decide what the channel does. *)
Record LDMA_Descriptor_t : Type := mkDescriptor {
  xferCnt : Z;
  doneIfs : Z;
  srcInc : LDMA_CtrlSrcInc_t;
  size : LDMA_CtrlSize_t;
  dstInc : LDMA_CtrlDstInc_t;
  srcAddr : address;
  dstAddr : address;
  linkMode : LDMA_LinkMode_t;
  link : Z;
  linkAddr : Z
}.

Record LDMA_TransferCfg_t : Type := mkTransferCfg {
  ldmaReqSel : LDMA_PeripheralSignal_t
}.

Definition LDMA_DESCRIPTOR_NON_EXTEND_SIZE_WORD : Z := 4.

(** Modelled from the spec: the initialiser macro
    [LDMA_DESCRIPTOR_LINKREL_M2P_BYTE(src, dest, count, linkjmp)] comes from the
    SDK header em_ldma.h, which is not under src/. The spec calls the setup a
    linked-descriptor configuration moving values from memory to a peripheral
    register; the call site names the arguments (memory source address,
    peripheral destination address, number of units of one transfer, and a
    link jump of 0 commented "Link to same descriptor"). The macro yields a
    byte-wide memory-to-peripheral transfer of [count] units ([xferCnt] holds
    [count - 1]) that sets the done flag and links, relative to itself, to the
    descriptor [linkjmp] descriptors further. *)
Definition LDMA_DESCRIPTOR_LINKREL_M2P_BYTE (src dest : address) (count linkjmp : Z)
  : LDMA_Descriptor_t :=
  {| xferCnt := count - 1;
     doneIfs := 1;
     srcInc := ldmaCtrlSrcIncOne;
     size := ldmaCtrlSizeByte;
     dstInc := ldmaCtrlDstIncNone;
     srcAddr := src;
     dstAddr := dest;
     linkMode := ldmaLinkModeRel;
     link := 1;
     linkAddr := linkjmp * LDMA_DESCRIPTOR_NON_EXTEND_SIZE_WORD |}.

(** Modelled from the spec: [LDMA_TRANSFER_CFG_PERIPHERAL(signal)] of em_ldma.h
    (not under src/) selects the peripheral signal that triggers the channel,
    the "hardware trigger" of the spec's glossary. *)
Definition LDMA_TRANSFER_CFG_PERIPHERAL (signal : LDMA_PeripheralSignal_t)
  : LDMA_TransferCfg_t :=
  {| ldmaReqSel := signal |}.

Definition with_size (sz : LDMA_CtrlSize_t) (d : LDMA_Descriptor_t) : LDMA_Descriptor_t :=
  mkDescriptor (xferCnt d) (doneIfs d) (srcInc d) sz (dstInc d) (srcAddr d) (dstAddr d)
    (linkMode d) (link d) (linkAddr d).

Definition with_doneIfs (v : Z) (d : LDMA_Descriptor_t) : LDMA_Descriptor_t :=
  mkDescriptor (xferCnt d) v (srcInc d) (size d) (dstInc d) (srcAddr d) (dstAddr d)
    (linkMode d) (link d) (linkAddr d).

Inductive sdk_call : Type :=
| CHIP_Init
| CMU_ClockEnable_GPIO
| CMU_ClockEnable_TIMER0
| GPIO_PinModeSet_PA6
| TIMER_Init
| Set_GPIO_TIMERROUTE0_ROUTEEN       (* GPIO->TIMERROUTE[0].ROUTEEN = ... *)
| Set_GPIO_TIMERROUTE0_CC0ROUTE      (* GPIO->TIMERROUTE[0].CC0ROUTE = ... *)
| TIMER_InitCC
| CMU_ClockFreqGet_TIMER0
| TIMER_TopSet (v : Z)
| TIMER_TopGet
| TIMER_Enable
| TIMER_IntEnable
| LDMA_Init
| LDMA_StartTransfer (ch : Z) (cfg : LDMA_TransferCfg_t) (d : LDMA_Descriptor_t)
| EMU_EnterEM1.

Inductive event : Type :=
| Load (c : cell) (v : Z)
| Store (c : cell) (v : Z)
| Call (f : sdk_call).

Inductive fault : Type := OutOfBounds (c : cell).

(** LDMA channel 0 once a transfer has been started on it. *)
Record channel : Type := mkChannel {
  ch_cfg : LDMA_TransferCfg_t;
  ch_desc : LDMA_Descriptor_t;    (* the descriptor being executed *)
  ch_left : Z;                    (* unit transfers left in it *)
  ch_unit : Z;                    (* index of the next source unit *)
  ch_done : bool                  (* the channel has stopped *)
}.

Record machine : Type := mkMachine {
  buffer : list Z;                (* static uint16_t buffer[BUFFER_SIZE] *)
  timer0_clock : Z;               (* CMU_ClockFreqGet(cmuClock_TIMER0) *)
  top : Z;                        (* TIMER0 top value *)
  ocb : Z;                        (* TIMER0->CC[0].OCB *)
  ldma_ch0 : option channel
}.

Definition M := Exec.M machine event fault.

Definition in_bounds (c : cell) : bool :=
  match c with
  | Buffer i | DutyCyclePercentages i => (0 <=? i) && (i <? BUFFER_SIZE)
  end.

Definition read_cell (c : cell) (m : machine) : Z :=
  match c with
  | Buffer i => elt (buffer m) i
  | DutyCyclePercentages i => elt dutyCyclePercentages i
  end.

Definition with_buffer (b : list Z) (m : machine) : machine :=
  mkMachine b (timer0_clock m) (top m) (ocb m) (ldma_ch0 m).
Definition with_top (v : Z) (m : machine) : machine :=
  mkMachine (buffer m) (timer0_clock m) v (ocb m) (ldma_ch0 m).
Definition with_ocb (v : Z) (m : machine) : machine :=
  mkMachine (buffer m) (timer0_clock m) (top m) v (ldma_ch0 m).
Definition with_ch0 (c : option channel) (m : machine) : machine :=
  mkMachine (buffer m) (timer0_clock m) (top m) (ocb m) c.

Definition load (c : cell) : M Z :=
  fun m => if in_bounds c then Ok (read_cell c m) m [Load c (read_cell c m)]
           else Fault (OutOfBounds c) [].

(** Only [buffer] is written; [dutyCyclePercentages] is [const]. *)
Definition store_buffer (i : Z) (v : Z) : M unit :=
  fun m => if in_bounds (Buffer i)
           then Ok tt (with_buffer (set_elt (buffer m) i v) m) [Store (Buffer i) v]
           else Fault (OutOfBounds (Buffer i)) [].

(** SDK calls are recorded. [TIMER_TopSet] sets the top value that
    [TIMER_TopGet] reads, and [LDMA_StartTransfer] on channel 0 loads the
    descriptor into the channel, with all its [xferCnt + 1] units to go. *)
Definition call (f : sdk_call) : M unit :=
  fun m =>
    Ok tt (match f with
           | TIMER_TopSet v => with_top (wrap32 v) m
           | LDMA_StartTransfer ch cfg d =>
               if ch =? 0
               then with_ch0 (Some (mkChannel cfg d (xferCnt d + 1) 0 false)) m
               else m
           | _ => m
           end) [Call f].

Definition call_TIMER_TopGet : M Z :=
  call TIMER_TopGet ;;; m <- get ;; ret (wrap32 (top m)).

Definition call_CMU_ClockFreqGet : M Z :=
  call CMU_ClockFreqGet_TIMER0 ;;; m <- get ;; ret (wrap32 (timer0_clock m)).

(** *** The program *)

Definition initGpio : M unit := call GPIO_PinModeSet_PA6.

Definition initCmu : M unit :=
  call CMU_ClockEnable_GPIO ;;; call CMU_ClockEnable_TIMER0.

Definition initTimer : M unit :=
  call TIMER_Init ;;;
  call Set_GPIO_TIMERROUTE0_ROUTEEN ;;;
  call Set_GPIO_TIMERROUTE0_CC0ROUTE ;;;
  call TIMER_InitCC ;;;
  f <- call_CMU_ClockFreqGet ;;
  call (TIMER_TopSet (f / PWM_FREQ)) ;;;
  call TIMER_Enable ;;;
  call TIMER_IntEnable.

(** [populateBuffer]: the product is formed in [uint32_t], divided by 100 and
    cut to [uint16_t]. *)
Definition populateBuffer : M unit :=
  for_each (seqZ 0 BUFFER_SIZE)
    (fun i =>
       t <- call_TIMER_TopGet ;;
       d <- load (DutyCyclePercentages i) ;;
       store_buffer i (wrap16 (wrap32 (t * d) / 100))).

(** [initLdma] *)
Definition initLdma : M unit :=
  let channelNum := 0 in
  call LDMA_Init ;;;
  let transferConfig := LDMA_TRANSFER_CFG_PERIPHERAL ldmaPeripheralSignal_TIMER0_CC0 in
  let descriptor :=
    LDMA_DESCRIPTOR_LINKREL_M2P_BYTE Addr_buffer Addr_TIMER0_CC0_OCB BUFFER_SIZE 0 in
  let descriptor := with_size ldmaCtrlSizeHalf descriptor in
  let descriptor := with_doneIfs 0 descriptor in
  call (LDMA_StartTransfer channelNum transferConfig descriptor).

Definition main_init : M unit :=
  call CHIP_Init ;;;
  initCmu ;;;
  initGpio ;;;
  initTimer ;;;
  populateBuffer ;;;
  initLdma.

(** [while (1) { EMU_EnterEM1(); }]: [wakes] is how often the core is woken
    again; after that it stays asleep. *)
Fixpoint main_loop (wakes : nat) : M unit :=
  call EMU_EnterEM1 ;;;
  match wakes with
  | O => halt
  | S n => main_loop n
  end.

Definition main (wakes : nat) : M unit := main_init ;;; main_loop wakes.

(** *** The LDMA channel *)

(** Modelled from the spec: the LDMA engine is hardware; this is the value it
    moves, the unit of size [sz] with index [k] of a [uint16_t] array in
    memory (little endian). *)
Definition read_unit (sz : LDMA_CtrlSize_t) (mem : list Z) (k : Z) : Z :=
  match sz with
  | ldmaCtrlSizeByte => (elt mem (k / 2) / 2 ^ (8 * (k mod 2))) mod 2 ^ 8
  | ldmaCtrlSizeHalf => elt mem k
  | ldmaCtrlSizeWord => elt mem (2 * k) + 2 ^ 16 * elt mem (2 * k + 1)
  end.

(** Modelled from the spec: the LDMA engine is hardware, described in the
    glossary as a linked-descriptor DMA engine moving values from memory to a
    peripheral register on a hardware trigger. When the units of a descriptor
    are done, a descriptor with [link] set loads the descriptor it links to
    and goes on; one with [link] clear stops the channel. The program has one
    descriptor, so a relative link of 0 loads it again; any other link target
    is no descriptor of the program and stops the channel. *)
Definition next_descriptor (d : LDMA_Descriptor_t) : option LDMA_Descriptor_t :=
  if link d =? 0 then None
  else match linkMode d with
       | ldmaLinkModeRel => if linkAddr d =? 0 then Some d else None
       | ldmaLinkModeAbs => None
       end.

(** Modelled from the spec: one request of the peripheral signal [sig]. A
    running channel that listens to it moves one unit from the source to the
    destination register, and after the last of the [xferCnt + 1] units goes
    on with [next_descriptor] or stops. The unit moved, if any, is returned. *)
Definition ldma_request (sig : LDMA_PeripheralSignal_t) (m : machine)
  : machine * option Z :=
  match ldma_ch0 m with
  | None => (m, None)
  | Some c =>
      if ch_done c then (m, None)
      else match ldmaReqSel (ch_cfg c), sig with
           | ldmaPeripheralSignal_TIMER0_CC0, ldmaPeripheralSignal_TIMER0_CC0 =>
               let d := ch_desc c in
               let v := read_unit (size d) (buffer m) (ch_unit c) in
               let m1 := match dstAddr d with
                         | Addr_TIMER0_CC0_OCB => with_ocb v m
                         | Addr_buffer => m
                         end in
               let k := match srcInc d with
                        | ldmaCtrlSrcIncOne => ch_unit c + 1
                        | ldmaCtrlSrcIncNone => ch_unit c
                        end in
               let c' :=
                 if 1 <? ch_left c
                 then mkChannel (ch_cfg c) d (ch_left c - 1) k false
                 else match next_descriptor d with
                      | Some d' => mkChannel (ch_cfg c) d' (xferCnt d' + 1) 0 false
                      | None => mkChannel (ch_cfg c) d 0 k true
                      end in
               (with_ch0 (Some c') m1, Some v)
           | _, _ => (m, None)
           end
  end.

(** Modelled from the spec: [n] compare events of TIMER0 channel 0, each
    raising one request; the values the channel moved are collected in order. *)
Fixpoint ldma_run (n : nat) (m : machine) : machine * list Z :=
  match n with
  | O => (m, [])
  | S k =>
      let '(m1, moved) := ldma_request ldmaPeripheralSignal_TIMER0_CC0 m in
      let '(m2, vs) := ldma_run k m1 in
      (m2, match moved with Some v => v :: vs | None => vs end)
  end.

Definition channel_stopped (m : machine) : bool :=
  match ldma_ch0 m with
  | Some c => ch_done c
  | None => true
  end.

Definition array_accesses (t : list event) : list cell :=
  flat_map (fun e => match e with
                     | Load c _ | Store c _ => [c]
                     | Call _ => []
                     end) t.

(** *** What the program amounts to *)

(** the entry [populateBuffer] computes from the top value [T] and a percentage *)
Definition duty_value (T d : Z) : Z := wrap16 (wrap32 (T * d) / 100).

(** the descriptor and the transfer configuration [initLdma] hands over *)
Definition pwm_descriptor : LDMA_Descriptor_t :=
  {| xferCnt := BUFFER_SIZE - 1;
     doneIfs := 0;
     srcInc := ldmaCtrlSrcIncOne;
     size := ldmaCtrlSizeHalf;
     dstInc := ldmaCtrlDstIncNone;
     srcAddr := Addr_buffer;
     dstAddr := Addr_TIMER0_CC0_OCB;
     linkMode := ldmaLinkModeRel;
     link := 1;
     linkAddr := 0 |}.

Definition pwm_transfer_cfg : LDMA_TransferCfg_t :=
  {| ldmaReqSel := ldmaPeripheralSignal_TIMER0_CC0 |}.

(** channel 0 while it executes [pwm_descriptor], [u] units into it *)
Definition streaming (u : Z) : channel :=
  mkChannel pwm_transfer_cfg pwm_descriptor (BUFFER_SIZE - u) u false.

(** One-shot reading of the descriptor: once the [BUFFER_SIZE] units are
    moved the channel has stopped. *)
Definition stops_after_buffer (m : machine) : Prop :=
  channel_stopped (fst (ldma_run (Z.to_nat BUFFER_SIZE) m)) = true.

(** the machine out of reset, clocked at 19 MHz *)
Definition at_reset : machine :=
  mkMachine [0; 0; 0; 0; 0; 0; 0; 0; 0; 0; 0] 19000000 0 0 None.

End TimerPwmDma.

(** ** The functions each source file defines *)

Module Sources.
Local Open Scope string_scope.

Definition ends_with (suffix s : string) : bool :=
  let n := String.length s in
  let k := String.length suffix in
  (k <=? n)%nat && String.eqb (String.substring (n - k) k s) suffix.

(** CMSIS names the entry points of the vector table [<source>_IRQHandler]. *)
Definition is_interrupt_handler (name : string) : bool := ends_with "_IRQHandler" name.

(** main_s1_xg1_xg13_xg14.c; [#if (US1CS_PIN & 1)] picks the GPIO handler. *)
Definition spi_slave_interrupt : list string :=
  ["initGPIO"; "initUSART1";
   (if Z.land SpiSlave.US1CS_PIN 1 =? 0 then "GPIO_EVEN_IRQHandler" else "GPIO_ODD_IRQHandler")%Z;
   "USART1_RX_IRQHandler"; "main"].

(** timer_pwm_dma/src/main.c *)
Definition timer_pwm_dma : list string :=
  ["initGpio"; "initCmu"; "initTimer"; "populateBuffer"; "initLdma"; "main"].

Definition interrupt_handlers (file : list string) : list string :=
  List.filter is_interrupt_handler file.

End Sources.

(** * Properties *)

Module ExecFacts.
Import Exec.
Section Facts.
Context {St Ev Flt : Type}.
Implicit Types (P : Ev -> Prop) (t : list Ev).

Lemma trace_of_prefix {A} t (r : result St Ev Flt A) :
  trace_of (prefix t r) = t ++ trace_of r.
Proof. destruct r; reflexivity. Qed.

Lemma bind_Ok {A B} (x : M St Ev Flt A) (k : A -> M St Ev Flt B) s a s1 t :
  x s = Ok a s1 t -> bind x k s = prefix t (k a s1).
Proof. intros H. unfold bind. rewrite H. reflexivity. Qed.

Lemma trace_of_bind {A B} (x : M St Ev Flt A) (k : A -> M St Ev Flt B) s :
  trace_of (bind x k s) =
    match x s with
    | Ok a s1 t => t ++ trace_of (k a s1)
    | Fault _ t | Halt _ t => t
    end.
Proof. unfold bind. destruct (x s); [apply trace_of_prefix | reflexivity | reflexivity]. Qed.

Lemma bind_Ok_inv {A B} (x : M St Ev Flt A) (k : A -> M St Ev Flt B) s b s2 t :
  bind x k s = Ok b s2 t ->
  exists a s1 t1 t2, x s = Ok a s1 t1 /\ k a s1 = Ok b s2 t2 /\ t = t1 ++ t2.
Proof.
  unfold bind. destruct (x s) as [a s1 t1 | f t1 | s1 t1]; try discriminate.
  destruct (k a s1) as [b' s2' t2 | f t2 | s2' t2] eqn:Hk; cbn; try discriminate.
  intros H. injection H as -> -> <-. exists a, s1, t1, t2. auto.
Qed.


Lemma returns_prefix {A} t (r : result St Ev Flt A) : returns (prefix t r) = returns r.
Proof. destruct r; reflexivity. Qed.




Lemma emits_impl {A} P Q (x : M St Ev Flt A) :
  (forall e, P e -> Q e) -> emits P x -> emits Q x.
Proof. intros Himp Hx s. eapply Forall_impl; [apply Hx | exact Himp]. Qed.

Lemma emits_ret {A} P (a : A) : emits P (ret a : M St Ev Flt A).
Proof. intros s. constructor. Qed.

Lemma emits_halt {A} P : emits P (halt : M St Ev Flt A).
Proof. intros s. constructor. Qed.

Lemma emits_modify P f : emits P (modify f : M St Ev Flt unit).
Proof. intros s. constructor. Qed.

Lemma emits_bind {A B} P (x : M St Ev Flt A) (k : A -> M St Ev Flt B) :
  emits P x -> (forall a, emits P (k a)) -> emits P (bind x k).
Proof.
  intros Hx Hk s. unfold bind. specialize (Hx s).
  destruct (x s) as [a s1 t | f t | s1 t]; cbn in Hx |- *; try exact Hx.
  rewrite trace_of_prefix. apply Forall_app. split; [exact Hx | apply Hk].
Qed.

Lemma emits_for_each {I} P (idxs : list I) (body : I -> M St Ev Flt unit) :
  (forall i, emits P (body i)) -> emits P (for_each idxs body).
Proof.
  intros Hb. induction idxs as [| i rest IH]; cbn [for_each].
  - apply emits_ret.
  - apply emits_bind; [apply Hb | intros _; exact IH].
Qed.

Lemma emits_relabel {A} P Q (g : Ev -> Ev) (x : M St Ev Flt A) :
  (forall e, Q e -> P (g e)) -> emits Q x -> emits P (relabel g x).
Proof.
  intros Hg Hx s. unfold relabel. specialize (Hx s).
  destruct (x s) as [a s1 t | f t | s1 t]; cbn in Hx |- *;
    apply Forall_map; eapply Forall_impl; eauto.
Qed.

End Facts.
End ExecFacts.

Module SpiSlaveFacts.
Import Exec ExecFacts SpiSlave.

Ltac blia := unfold BUFLEN in *; cbn [length] in *; lia.

Lemma wrap32_small z : 0 <= z < 2 ^ 32 -> wrap32 z = z.
Proof. intros H. unfold wrap32. apply Z.mod_small. exact H. Qed.

Lemma elt_set_elt_eq (a : list Z) i v :
  (Z.to_nat i < length a)%nat -> elt (set_elt a i v) i = v.
Proof.
  intros Hlen. unfold elt, set_elt.
  rewrite list_lookup_insert_eq by exact Hlen. reflexivity.
Qed.

Lemma elt_set_elt_ne (a : list Z) i j v :
  0 <= i -> 0 <= j -> i <> j -> elt (set_elt a i v) j = elt a j.
Proof.
  intros Hi Hj Hne. unfold elt, set_elt.
  rewrite list_lookup_insert_ne by lia. reflexivity.
Qed.

Lemma length_set_elt (a : list Z) i v : length (set_elt a i v) = length a.
Proof. unfold set_elt. apply length_insert. Qed.

(** *** One run of the receive handler *)

Lemma handler_run m :
  0 <= bufpos m < BUFLEN ->
  USART1_RX_IRQHandler m = Ok tt (handler_post m) (handler_trace m).
Proof.
  intros Hp. unfold USART1_RX_IRQHandler, handler_post, handler_trace.
  assert (H0 : (0 <=? bufpos m) = true) by (apply Z.leb_le; lia).
  assert (H1 : (bufpos m <? BUFLEN) = true) by (apply Z.ltb_lt; lia).
  assert (H2 : (0 <=? bufpos m + 1) = true) by (apply Z.leb_le; lia).
  unfold bind, load, store, call, ret.
  cbn -[Z.ltb Z.leb wrap32 wrap8 elt set_elt BUFLEN Z.add].
  rewrite (wrap32_small (bufpos m + 1)) by (unfold BUFLEN in Hp; lia).
  rewrite H0, H1.
  cbn -[Z.ltb Z.leb wrap32 wrap8 elt set_elt BUFLEN Z.add].
  rewrite H2.
  destruct (bufpos m + 1 <? BUFLEN); reflexivity.
Qed.

Lemma handler_overrun m :
  ~ (0 <= bufpos m < BUFLEN) ->
  USART1_RX_IRQHandler m =
    Fault (OutOfBounds (Inbuf (bufpos m)))
      [Call GPIO_PinOutSet; Load USART1_RXDATA (rxdata m); Load Bufpos (bufpos m);
       Store Bufpos (wrap32 (bufpos m + 1))].
Proof.
  intros Hp. unfold USART1_RX_IRQHandler.
  assert (H0 : (0 <=? bufpos m) && (bufpos m <? BUFLEN) = false).
  { apply andb_false_iff.
    destruct (Z.leb_spec 0 (bufpos m)); [right | left; reflexivity].
    apply Z.ltb_ge. lia. }
  unfold bind, load, store, call, ret.
  cbn -[Z.ltb Z.leb wrap32 wrap8 elt set_elt BUFLEN Z.add].
  rewrite H0. reflexivity.
Qed.

Lemma dispatch_rx_run r m :
  0 <= bufpos m < BUFLEN ->
  dispatch (IrqRx r) m =
    Ok tt (handler_post (write_cell USART1_RXDATA r m))
      (map (InIsr USART1_RX) (handler_trace (write_cell USART1_RXDATA r m))).
Proof.
  intros Hp. unfold dispatch, in_isr, bind, modify, relabel.
  rewrite handler_run by exact Hp. reflexivity.
Qed.

(** *** Several frames in a row *)

Lemma rx_post_app rs1 rs2 m : rx_post (rs1 ++ rs2) m = rx_post rs2 (rx_post rs1 m).
Proof. revert m. induction rs1 as [| r rs1 IH]; intros m; cbn; [reflexivity | apply IH]. Qed.

Lemma rx_trace_app rs1 rs2 m :
  rx_trace (rs1 ++ rs2) m = rx_trace rs1 m ++ rx_trace rs2 (rx_post rs1 m).
Proof.
  revert m. induction rs1 as [| r rs1 IH]; intros m; cbn [rx_trace rx_post app].
  - reflexivity.
  - rewrite IH, app_assoc. reflexivity.
Qed.

Lemma bufpos_rx_post rs m : bufpos (rx_post rs m) = bufpos m + Z.of_nat (length rs).
Proof.
  revert m. induction rs as [| r rs IH]; intros m; cbn [rx_post length].
  - blia.
  - rewrite IH. cbn. blia.
Qed.

Lemma outbuf_rx_post rs m : outbuf (rx_post rs m) = outbuf m.
Proof.
  revert m. induction rs as [| r rs IH]; intros m; cbn [rx_post]; [reflexivity |].
  rewrite IH. reflexivity.
Qed.


Lemma run_rx rs m :
  0 <= bufpos m -> bufpos m + Z.of_nat (length rs) <= BUFLEN ->
  for_each (map IrqRx rs) dispatch m = Ok tt (rx_post rs m) (rx_trace rs m).
Proof.
  revert m. induction rs as [| r rs IH]; intros m H0 Hlen.
  - reflexivity.
  - cbn [map for_each rx_post rx_trace]. cbn [length] in Hlen.
    erewrite bind_Ok by (apply dispatch_rx_run; blia).
    rewrite IH by (cbn; blia). reflexivity.
Qed.

(** *** What reaches USART1->TXDATA *)

Lemma tx_writes_app t u : tx_writes (t ++ u) = tx_writes t ++ tx_writes u.
Proof. unfold tx_writes. apply flat_map_app. Qed.

Lemma tx_writes_in_isr h t : tx_writes (map (InIsr h) t) = tx_writes t.
Proof.
  unfold tx_writes. induction t as [| e t IH]; cbn [map flat_map]; [reflexivity |].
  rewrite IH. reflexivity.
Qed.

Lemma tx_writes_handler_trace m :
  tx_writes (handler_trace m) =
    if bufpos m + 1 <? BUFLEN then [elt (outbuf m) (bufpos m + 1)] else [].
Proof. unfold handler_trace. destruct (bufpos m + 1 <? BUFLEN); reflexivity. Qed.

Lemma tx_writes_rx_trace rs m :
  0 <= bufpos m -> bufpos m + Z.of_nat (length rs) <= BUFLEN ->
  tx_writes (rx_trace rs m) =
    map (elt (outbuf m))
      (seqZ (bufpos m + 1) (Z.min (Z.of_nat (length rs)) (BUFLEN - 1 - bufpos m))).
Proof.
  revert m. induction rs as [| r rs IH]; intros m H0 Hlen.
  - cbn [rx_trace]. rewrite seqZ_nil by blia. reflexivity.
  - cbn [rx_trace]. cbn [length] in Hlen |- *.
    rewrite tx_writes_app, tx_writes_in_isr, tx_writes_handler_trace.
    rewrite IH by (cbn; blia). cbn [handler_post write_cell bufpos outbuf].
    destruct (Z.ltb_spec (bufpos m + 1) BUFLEN) as [Hlt | Hge].
    + rewrite (seqZ_cons (bufpos m + 1)) by blia. cbn [map app].
      f_equal. f_equal. f_equal; blia.
    + rewrite !seqZ_nil by blia. reflexivity.
Qed.

(** *** What ends up in [inbuf] *)

Lemma inbuf_rx_post rs m i :
  0 <= bufpos m -> (Z.to_nat (bufpos m) + length rs <= length (inbuf m))%nat ->
  0 <= i ->
  elt (inbuf (rx_post rs m)) i =
    if (bufpos m <=? i) && (i <? bufpos m + Z.of_nat (length rs))
    then wrap8 (elt rs (i - bufpos m))
    else elt (inbuf m) i.
Proof.
  revert m. induction rs as [| r rs IH]; intros m H0 Hlen Hi.
  - cbn [rx_post length].
    replace ((bufpos m <=? i) && (i <? bufpos m + Z.of_nat 0)) with false; [reflexivity |].
    symmetry. apply andb_false_iff.
    destruct (Z.leb_spec (bufpos m) i); [right; apply Z.ltb_ge; blia | left; reflexivity].
  - cbn [rx_post]. cbn [length] in Hlen |- *.
    rewrite IH; cbn [handler_post write_cell bufpos inbuf rxdata];
      [| blia | rewrite length_set_elt; blia | blia].
    destruct (Z.leb_spec (bufpos m + 1) i) as [Hge | Hlt].
    + replace (bufpos m <=? i) with true by (symmetry; apply Z.leb_le; blia).
      cbn [andb].
      replace (i <? bufpos m + 1 + Z.of_nat (length rs))
        with (i <? bufpos m + Z.of_nat (S (length rs)))
        by (f_equal; blia).
      destruct (i <? bufpos m + Z.of_nat (S (length rs))).
      * f_equal. unfold elt.
        replace (Z.to_nat (i - bufpos m)) with (S (Z.to_nat (i - (bufpos m + 1)))) by blia.
        reflexivity.
      * apply elt_set_elt_ne; blia.
    + cbn [andb].
      destruct (Z.leb_spec (bufpos m) i) as [Hle | Hlt'].
      * assert (i = bufpos m) as -> by blia.
        replace (bufpos m <? bufpos m + Z.of_nat (S (length rs))) with true
          by (symmetry; apply Z.ltb_lt; blia).
        cbn [andb]. rewrite Z.sub_diag. rewrite elt_set_elt_eq by blia. reflexivity.
      * cbn [andb]. apply elt_set_elt_ne; blia.
Qed.

(** *** The pieces of one round of [main] *)

Lemma round_prepare_run m :
  well_sized m ->
  exists t, round_prepare m = Ok tt (prepared m) t /\ tx_writes t = [].
Proof.
  destruct m as [ob ib bp rx tx pin]. intros [Hob Hib]. cbn in Hob, Hib.
  do 11 (destruct ob as [| ? ob]; try discriminate Hob).
  do 11 (destruct ib as [| ? ib]; try discriminate Hib).
  eexists. split; reflexivity.
Qed.

Lemma em1_gpio_run m :
  EMU_EnterEM1_woken (Some [IrqGpio]) m =
    Ok tt m [Call EMU_EnterEM1; InIsr GPIO_ODD (Call (GPIO_IntClear (Z.shiftl 1 US1CS_PIN)))].
Proof. destruct m; reflexivity. Qed.

Lemma em1_rx_run rs m :
  0 <= bufpos m -> bufpos m + Z.of_nat (length rs) <= BUFLEN ->
  EMU_EnterEM1_woken (Some (map IrqRx rs)) m =
    Ok tt (rx_post rs m) (Call EMU_EnterEM1 :: rx_trace rs m).
Proof.
  intros H0 Hlen. unfold EMU_EnterEM1_woken.
  erewrite bind_Ok by (unfold call; reflexivity).
  rewrite run_rx by assumption. destruct m; reflexivity.
Qed.

Lemma round_start_run m :
  0 <= bufpos m < BUFLEN ->
  exists t, round_start m =
              Ok tt (mkMachine (outbuf m) (inbuf m) (bufpos m) (rxdata m)
                       (elt (outbuf m) (bufpos m)) false) t /\
            tx_writes t = [elt (outbuf m) (bufpos m)].
Proof.
  intros Hp. unfold round_start.
  assert (H0 : (0 <=? bufpos m) = true) by (apply Z.leb_le; lia).
  assert (H1 : (bufpos m <? BUFLEN) = true) by (apply Z.ltb_lt; lia).
  unfold bind, load, store, call, ret.
  cbn -[Z.ltb Z.leb elt BUFLEN].
  rewrite H0, H1. eexists. split; reflexivity.
Qed.

Lemma wait_run bs m :
  0 <= bufpos m -> bufpos m + Z.of_nat (length (concat bs)) = BUFLEN ->
  exists t,
    wait_all_received (map (map IrqRx) bs) m = Ok tt (rx_post (concat bs) m) t /\
    tx_writes t = tx_writes (rx_trace (concat bs) m).
Proof.
  revert m. induction bs as [| b bs IH]; intros m H0 Hlen.
  - cbn in Hlen. cbn [map concat rx_post rx_trace wait_all_received].
    unfold bind, load. cbn -[Z.ltb BUFLEN].
    replace (bufpos m <? BUFLEN) with false by (symmetry; apply Z.ltb_ge; lia).
    eexists. split; reflexivity.
  - cbn [map concat wait_all_received]. cbn [concat] in Hlen.
    rewrite length_app in Hlen.
    erewrite bind_Ok by (unfold load; reflexivity).
    cbv beta. cbn [read_cell].
    destruct (Z.ltb_spec (bufpos m) BUFLEN) as [Hlt | Hge].
    + erewrite bind_Ok by (apply em1_rx_run; lia).
      destruct (IH (rx_post b m)) as (t & Hrun & Htx).
      { rewrite bufpos_rx_post. lia. }
      { rewrite bufpos_rx_post. lia. }
      rewrite Hrun. rewrite rx_post_app, rx_trace_app.
      eexists. split; [reflexivity |].
      rewrite !tx_writes_app, Htx. reflexivity.
    + assert (Hnil : b ++ concat bs = []).
      { apply length_zero_iff_nil. rewrite length_app. lia. }
      rewrite Hnil. eexists. split; reflexivity.
Qed.

(** *** Which events the code can emit at all *)

Lemma emits_load P c : (forall v, P (Load c v)) -> emits P (load c).
Proof.
  intros H m. unfold load. destruct (in_bounds c); cbn; repeat constructor. apply H.
Qed.

Lemma emits_store P c v : P (Store c v) -> emits P (store c v).
Proof.
  intros H m. unfold store. destruct (in_bounds c); cbn; repeat constructor. exact H.
Qed.

Lemma emits_call P f : P (Call f) -> emits P (call f).
Proof. intros H m. unfold call. cbn. repeat constructor. exact H. Qed.

Ltac emits_step :=
  first
    [ apply emits_bind; [| intros ?]
    | apply emits_load; intros ?
    | apply emits_store
    | apply emits_call
    | apply emits_ret
    | apply emits_halt
    | apply emits_modify
    | apply emits_for_each; intros ? ].

Lemma rx_handler_emits : emits rx_handler_event USART1_RX_IRQHandler.
Proof.
  unfold USART1_RX_IRQHandler.
  repeat emits_step; cbn; auto.
  destruct (_ <? _); repeat emits_step; cbn; auto.
Qed.

Lemma gpio_handler_emits : emits gpio_handler_event GPIO_ODD_IRQHandler.
Proof. unfold GPIO_ODD_IRQHandler. apply emits_call. eexists. reflexivity. Qed.

Lemma dispatch_emits_sharing q : emits sharing_discipline (dispatch q).
Proof.
  destruct q as [| r]; unfold dispatch, in_isr.
  - eapply emits_relabel; [| apply gpio_handler_emits]. intros e He. exact He.
  - apply emits_bind; [apply emits_modify | intros _].
    eapply emits_relabel; [| apply rx_handler_emits]. intros e He. exact He.
Qed.

Lemma dispatch_emits_isr q : emits (fun e => by_isr e = true) (dispatch q).
Proof.
  destruct q as [| r]; unfold dispatch, in_isr.
  - eapply (emits_relabel _ (fun _ => True)); [reflexivity |].
    intros m. apply Forall_forall. intros; exact I.
  - apply emits_bind; [apply emits_modify | intros _].
    eapply (emits_relabel _ (fun _ => True)); [reflexivity |].
    intros m. apply Forall_forall. intros; exact I.
Qed.

Lemma em1_emits_sharing wake : emits sharing_discipline (EMU_EnterEM1_woken wake).
Proof.
  unfold EMU_EnterEM1_woken. apply emits_bind; [apply emits_call; exact I | intros _].
  destruct wake; [apply emits_for_each; intros q; apply dispatch_emits_sharing | apply emits_halt].
Qed.

Lemma em1_emits_wait wake : emits wait_discipline (EMU_EnterEM1_woken wake).
Proof.
  unfold EMU_EnterEM1_woken. apply emits_bind; [apply emits_call; reflexivity | intros _].
  destruct wake; [| apply emits_halt].
  eapply emits_impl; [| apply emits_for_each; intros q; apply dispatch_emits_isr].
  intros [] He; try discriminate He. exact I.
Qed.

Lemma wait_emits_sharing script : emits sharing_discipline (wait_all_received script).
Proof.
  induction script as [| w rest IH]; cbn [wait_all_received].
  - apply emits_bind; [apply emits_load; intros v; left; reflexivity | intros p].
    destruct (p <? BUFLEN); [apply em1_emits_sharing | apply emits_ret].
  - apply emits_bind; [apply emits_load; intros v; left; reflexivity | intros p].
    destruct (p <? BUFLEN); [| apply emits_ret].
    apply emits_bind; [apply em1_emits_sharing | intros _; exact IH].
Qed.

Lemma wait_emits_wait script : emits wait_discipline (wait_all_received script).
Proof.
  induction script as [| w rest IH]; cbn [wait_all_received].
  - apply emits_bind; [apply emits_load; intros v; reflexivity | intros p].
    destruct (p <? BUFLEN); [apply em1_emits_wait | apply emits_ret].
  - apply emits_bind; [apply emits_load; intros v; reflexivity | intros p].
    destruct (p <? BUFLEN); [| apply emits_ret].
    apply emits_bind; [apply em1_emits_wait | intros _; exact IH].
Qed.

Lemma main_round_emits_sharing cs script :
  emits sharing_discipline (main_round cs script).
Proof.
  unfold main_round, round_prepare, round_start, round_finish.
  repeat first
    [ apply em1_emits_sharing
    | apply wait_emits_sharing
    | emits_step ];
    cbn; auto.
  all: try (left; discriminate).
Qed.

Lemma main_emits_sharing rounds : emits sharing_discipline (main rounds).
Proof.
  unfold main. apply emits_bind; [| intros _; apply emits_bind; [| intros _]].
  - unfold main_init, initGPIO, initUSART1, setup. repeat emits_step; exact I.
  - apply emits_for_each. intros r. apply main_round_emits_sharing.
  - apply emits_bind; [| intros _; apply em1_emits_sharing].
    unfold round_prepare. repeat emits_step; cbn; auto.
    all: left; discriminate.
Qed.

(** *** The shape of the wait loop *)





Lemma wait_trace_unfold script m :
  trace_of (wait_all_received script m) =
    Load Bufpos (bufpos m) ::
      (if bufpos m <? BUFLEN
       then match script with
            | w :: rest =>
                trace_of ((EMU_EnterEM1_woken (Some w) ;;; wait_all_received rest) m)
            | [] => trace_of (EMU_EnterEM1_woken None m)
            end
       else []).
Proof.
  destruct script as [| w rest]; cbn [wait_all_received];
    rewrite trace_of_bind; unfold load at 1; cbn [in_bounds read_cell app];
    destruct (bufpos m <? BUFLEN); reflexivity.
Qed.

Lemma wait_returns script :
  forall m m' t,
    wait_all_received script m = Ok tt m' t -> BUFLEN <= bufpos m'.
Proof.
  induction script as [| w rest0 IH]; intros m m' t Hrun;
    cbn [wait_all_received] in Hrun;
    apply bind_Ok_inv in Hrun as (p & m1 & t1 & t2 & Hload & Hk & _);
    unfold load in Hload; cbn [in_bounds read_cell] in Hload;
    injection Hload as <- <- _;
    destruct (Z.ltb_spec (bufpos m) BUFLEN) as [Hlt | Hge].
  - unfold EMU_EnterEM1_woken, bind, call, halt in Hk. discriminate Hk.
  - unfold ret in Hk. injection Hk as <- _. exact Hge.
  - apply bind_Ok_inv in Hk as ([] & m2 & u1 & u2 & _ & Hrest & _).
    eapply IH. exact Hrest.
  - unfold ret in Hk. injection Hk as <- _. exact Hge.
Qed.

Lemma round_finish_run m :
  round_finish m =
    Ok tt (set_timepin true m)
      [Call GPIO_PinOutSet; Call USART_IntDisable;
       Call (GPIO_IntDisable (Z.shiftl 1 US1CS_PIN)); Call (USART_Enable false)].
Proof. destruct m; reflexivity. Qed.

Lemma seqZ_buflen : seqZ 0 BUFLEN = [0; 1; 2; 3; 4; 5; 6; 7; 8; 9].
Proof. reflexivity. Qed.

Lemma round_prepare_accesses m :
  returns (round_prepare m) = true /\
  array_accesses (trace_of (round_prepare m)) =
    flat_map (fun i => [Inbuf i; Outbuf i]) (seqZ 0 BUFLEN).
Proof.
  destruct m as [ob ib bp rx tx pin]. unfold round_prepare. rewrite seqZ_buflen.
  cbv -[set_elt]. split; reflexivity.
Qed.

Lemma round_start_accesses m :
  0 <= bufpos m < BUFLEN ->
  returns (round_start m) = true /\
  array_accesses (trace_of (round_start m)) = [Outbuf (bufpos m)].
Proof.
  intros Hp. unfold round_start.
  assert (H0 : (0 <=? bufpos m) = true) by (apply Z.leb_le; lia).
  assert (H1 : (bufpos m <? BUFLEN) = true) by (apply Z.ltb_lt; lia).
  unfold bind, load, store, call, ret.
  cbn -[Z.ltb Z.leb elt BUFLEN].
  rewrite H0, H1. split; reflexivity.
Qed.

Lemma handler_accesses m :
  array_accesses (handler_trace m) =
    Inbuf (bufpos m) :: (if bufpos m + 1 <? BUFLEN then [Outbuf (bufpos m + 1)] else []).
Proof. unfold handler_trace. destruct (bufpos m + 1 <? BUFLEN); reflexivity. Qed.

(** *** The wait loop under unmasked interrupts *)











(** *** Where main stores to bufpos *)

Lemma usart_enabled_after_app on t u :
  usart_enabled_after on (t ++ u) = usart_enabled_after (usart_enabled_after on t) u.
Proof.
  revert on. induction t as [| e t IH]; intros on; [reflexivity |].
  destruct e as [c v | c v | f | h e']; cbn [app usart_enabled_after]; try apply IH.
  destruct f; apply IH.
Qed.

Lemma resets_before_round_app on t u :
  resets_before_round on (t ++ u) <->
  resets_before_round on t /\ resets_before_round (usart_enabled_after on t) u.
Proof.
  revert on. induction t as [| e t IH]; intros on; [cbn; tauto |].
  destruct e as [c v | c v | f | h e']; cbn [app usart_enabled_after resets_before_round];
    try apply IH.
  - destruct c; try apply IH. rewrite IH. tauto.
  - destruct f; apply IH.
Qed.

Lemma isr_events_pass on t :
  Forall (fun e => by_isr e = true) t ->
  resets_before_round on t /\ usart_enabled_after on t = on.
Proof.
  induction 1 as [| e t He _ IH]; [split; [exact I | reflexivity] |].
  destruct e; try discriminate He. exact IH.
Qed.

Lemma keeps_bind {A B} on1 on2 on3 (x : M A) (k : A -> M B) :
  keeps on1 on2 x -> (forall a, keeps on2 on3 (k a)) -> keeps on1 on3 (bind x k).
Proof.
  intros Hx Hk m. specialize (Hx m). rewrite trace_of_bind. unfold bind.
  destruct (x m) as [a m1 t | f t | m1 t]; cbn [trace_of returns] in Hx |- *.
  - destruct Hx as [Hr Ha]. specialize (Ha eq_refl). specialize (Hk a m1).
    destruct Hk as [Hr' Ha']. split.
    + apply resets_before_round_app. rewrite Ha. auto.
    + rewrite returns_prefix. intros Hret.
      rewrite usart_enabled_after_app, Ha. apply Ha'. exact Hret.
  - split; [apply Hx | discriminate].
  - split; [apply Hx | discriminate].
Qed.

Lemma keeps_ret {A} on (a : A) : keeps on on (ret a : M A).
Proof. intros m. split; [exact I | reflexivity]. Qed.

Lemma keeps_halt {A} on on' : keeps on on' (halt : M A).
Proof. intros m. split; [exact I | discriminate]. Qed.

Lemma keeps_modify on f : keeps on on (modify f : M unit).
Proof. intros m. split; [exact I | reflexivity]. Qed.

Lemma keeps_load on c : keeps on on (load c).
Proof. intros m. unfold load. destruct (in_bounds c); split; cbn; auto. Qed.

Lemma keeps_store_other on c v : c <> Bufpos -> keeps on on (store c v).
Proof.
  intros Hc m. unfold store. destruct (in_bounds c); split; cbn; auto.
  destruct c; cbn; auto. contradiction.
Qed.

Lemma keeps_reset : keeps false false (store Bufpos 0).
Proof. intros m. split; cbn; auto. Qed.

Lemma keeps_call on f :
  (forall b, f <> USART_Enable b) -> keeps on on (call f).
Proof.
  intros Hf m. unfold call. cbn [trace_of returns].
  destruct f; cbn; auto. exfalso. eapply Hf. reflexivity.
Qed.

Lemma keeps_enable on b : keeps on b (call (USART_Enable b)).
Proof. intros m. split; cbn; auto. Qed.

Lemma keeps_isr {A} on (x : M A) :
  emits (fun e => by_isr e = true) x -> keeps on on x.
Proof.
  intros Hx m. destruct (isr_events_pass on _ (Hx m)) as [Hr Ha].
  split; [exact Hr | intros _; exact Ha].
Qed.

Lemma keeps_for_each {I} on (idxs : list I) (body : I -> M unit) :
  (forall i, keeps on on (body i)) -> keeps on on (for_each idxs body).
Proof.
  intros Hb. induction idxs as [| i rest IH]; cbn [for_each].
  - apply keeps_ret.
  - eapply keeps_bind; [apply Hb | intros _; exact IH].
Qed.

Lemma keeps_em1 on wake : keeps on on (EMU_EnterEM1_woken wake).
Proof.
  unfold EMU_EnterEM1_woken.
  eapply keeps_bind; [apply keeps_call; discriminate | intros _].
  destruct wake as [w |]; [| apply keeps_halt].
  apply keeps_isr. apply emits_for_each. intros q. apply dispatch_emits_isr.
Qed.

Lemma keeps_wait on script : keeps on on (wait_all_received script).
Proof.
  induction script as [| w rest IH]; cbn [wait_all_received];
    (eapply keeps_bind; [apply keeps_load | intros p]);
    (destruct (p <? BUFLEN); [| apply keeps_ret]).
  - apply keeps_em1.
  - eapply keeps_bind; [apply keeps_em1 | intros _; exact IH].
Qed.

Lemma keeps_round_prepare : keeps false false round_prepare.
Proof.
  unfold round_prepare.
  eapply keeps_bind; [| intros _; eapply keeps_bind; [apply keeps_reset | intros _]].
  - apply keeps_for_each. intros i.
    eapply keeps_bind; [apply keeps_store_other; discriminate | intros _].
    apply keeps_store_other. discriminate.
  - eapply keeps_bind; [apply keeps_call; discriminate | intros _].
    eapply keeps_bind; [apply keeps_call; discriminate | intros _].
    apply keeps_call. discriminate.
Qed.

Lemma keeps_round_start : keeps false true round_start.
Proof.
  unfold round_start.
  eapply keeps_bind; [apply keeps_call; discriminate | intros _].
  eapply keeps_bind; [apply keeps_enable | intros _].
  eapply keeps_bind; [apply keeps_call; discriminate | intros _].
  eapply keeps_bind; [apply keeps_load | intros p].
  eapply keeps_bind; [apply keeps_load | intros v].
  eapply keeps_bind; [apply keeps_store_other; discriminate | intros _].
  apply keeps_call. discriminate.
Qed.

Lemma keeps_round_finish : keeps true false round_finish.
Proof.
  unfold round_finish.
  eapply keeps_bind; [apply keeps_call; discriminate | intros _].
  eapply keeps_bind; [apply keeps_call; discriminate | intros _].
  eapply keeps_bind; [apply keeps_call; discriminate | intros _].
  apply keeps_enable.
Qed.

Lemma keeps_main_round cs script : keeps false false (main_round cs script).
Proof.
  unfold main_round.
  eapply keeps_bind; [apply keeps_round_prepare | intros _].
  eapply keeps_bind; [apply keeps_em1 | intros _].
  eapply keeps_bind; [apply keeps_round_start | intros _].
  eapply keeps_bind; [apply keeps_wait | intros _].
  apply keeps_round_finish.
Qed.

Lemma keeps_main_init : keeps false false main_init.
Proof.
  unfold main_init, initGPIO, initUSART1, setup.
  repeat (eapply keeps_bind; [| intros _]); apply keeps_call; discriminate.
Qed.

Lemma keeps_main rounds : keeps false false (main rounds).
Proof.
  unfold main.
  eapply keeps_bind; [apply keeps_main_init | intros _].
  eapply keeps_bind; [apply keeps_for_each; intros r; apply keeps_main_round | intros _].
  eapply keeps_bind; [apply keeps_round_prepare | intros _].
  apply keeps_em1.
Qed.

End SpiSlaveFacts.

Module TimerPwmDmaFacts.
Import Exec ExecFacts TimerPwmDma.

Ltac zlia := unfold BUFFER_SIZE in *; lia.

(** *** [populateBuffer] *)

Lemma seqZ_buffer : seqZ 0 BUFFER_SIZE = [0; 1; 2; 3; 4; 5; 6; 7; 8; 9; 10].
Proof. reflexivity. Qed.

Lemma populate_run m :
  length (buffer m) = Z.to_nat BUFFER_SIZE ->
  exists t,
    populateBuffer m =
      Ok tt (with_buffer (map (duty_value (wrap32 (top m))) dutyCyclePercentages) m) t.
Proof.
  destruct m as [buf clk T reg ch]. cbn [buffer top]. intros Hlen.
  change (Z.to_nat BUFFER_SIZE) with 11%nat in Hlen.
  do 12 (destruct buf as [| ? buf]; try discriminate Hlen).
  eexists. unfold populateBuffer. rewrite seqZ_buffer.
  cbv -[wrap16 wrap32 Z.mul Z.div]. reflexivity.
Qed.

Lemma populate_accesses m :
  returns (populateBuffer m) = true /\
  array_accesses (trace_of (populateBuffer m)) =
    flat_map (fun i => [DutyCyclePercentages i; Buffer i]) (seqZ 0 BUFFER_SIZE).
Proof.
  destruct m as [buf clk T reg ch]. unfold populateBuffer. rewrite seqZ_buffer.
  cbv -[wrap16 wrap32 Z.mul Z.div]. split; reflexivity.
Qed.

Lemma duty_value_small T d :
  0 <= T < 2 ^ 16 -> 0 <= d <= 100 -> duty_value T d = T * d / 100.
Proof.
  intros HT Hd. unfold duty_value, wrap16, wrap32.
  assert (0 <= T * d <= T * 100) by nia.
  rewrite (Z.mod_small (T * d)) by lia.
  apply Z.mod_small. split.
  - apply Z.div_pos; lia.
  - apply Z.div_lt_upper_bound; lia.
Qed.

Lemma duty_value_mono T d1 d2 :
  0 <= T < 2 ^ 16 -> 0 <= d1 <= d2 -> d2 <= 100 ->
  duty_value T d1 <= duty_value T d2.
Proof.
  intros HT H1 H2. rewrite !duty_value_small by lia.
  apply Z.div_le_mono; nia.
Qed.

Lemma duty_value_full T : 0 <= T < 2 ^ 16 -> duty_value T 100 = T.
Proof. intros HT. rewrite duty_value_small by lia. apply Z.div_mul. lia. Qed.

Lemma duty_value_le T d : 0 <= T < 2 ^ 16 -> 0 <= d <= 100 -> duty_value T d <= T.
Proof.
  intros HT Hd. rewrite <- (duty_value_full T HT) at 2.
  apply duty_value_mono; lia.
Qed.

Lemma duty_lookup i :
  0 <= i < BUFFER_SIZE -> elt dutyCyclePercentages i = 10 * i.
Proof.
  intros Hi.
  assert (Hc : i = 0 \/ i = 1 \/ i = 2 \/ i = 3 \/ i = 4 \/ i = 5 \/ i = 6 \/
               i = 7 \/ i = 8 \/ i = 9 \/ i = 10) by zlia.
  repeat (destruct Hc as [-> | Hc]; [reflexivity |]). subst i. reflexivity.
Qed.

Lemma elt_map (f : Z -> Z) (a : list Z) i :
  (Z.to_nat i < length a)%nat -> elt (map f a) i = f (elt a i).
Proof.
  intros Hi. unfold elt. change (map f a) with (f <$> a). rewrite list_lookup_fmap.
  destruct (lookup_lt_is_Some_2 a (Z.to_nat i) Hi) as [x Hx]. rewrite Hx. reflexivity.
Qed.

(** *** [initLdma] and the channel it starts *)

Lemma initLdma_run m :
  initLdma m =
    Ok tt (with_ch0 (Some (streaming 0)) m)
      [Call LDMA_Init; Call (LDMA_StartTransfer 0 pwm_transfer_cfg pwm_descriptor)].
Proof. destruct m; reflexivity. Qed.

Lemma next_pwm_descriptor : next_descriptor pwm_descriptor = Some pwm_descriptor.
Proof. reflexivity. Qed.

Lemma request_streaming m u :
  ldma_ch0 m = Some (streaming u) -> 0 <= u < BUFFER_SIZE ->
  ldma_request ldmaPeripheralSignal_TIMER0_CC0 m =
    (with_ch0 (Some (streaming ((u + 1) mod BUFFER_SIZE))) (with_ocb (elt (buffer m) u) m),
     Some (elt (buffer m) u)).
Proof.
  intros Hch Hu. unfold ldma_request. rewrite Hch.
  cbn -[Z.ltb Z.sub Z.add Z.modulo BUFFER_SIZE].
  destruct (Z.ltb_spec 1 (BUFFER_SIZE - u)) as [Hlt | Hge].
  - rewrite Z.mod_small by zlia. unfold streaming.
    replace (BUFFER_SIZE - u - 1) with (BUFFER_SIZE - (u + 1)) by lia. reflexivity.
  - assert (u = 10) as -> by zlia. reflexivity.
Qed.

Lemma run_streaming n :
  forall m u,
    ldma_ch0 m = Some (streaming u) -> 0 <= u < BUFFER_SIZE ->
    let '(m', moved) := ldma_run n m in
    ldma_ch0 m' = Some (streaming ((u + Z.of_nat n) mod BUFFER_SIZE)) /\
    buffer m' = buffer m /\
    moved = map (fun k => elt (buffer m) ((u + k) mod BUFFER_SIZE)) (seqZ 0 (Z.of_nat n)).
Proof.
  induction n as [| n IH]; intros m u Hch Hu.
  - cbn [ldma_run]. rewrite Z.add_0_r, Z.mod_small by exact Hu. auto.
  - cbn [ldma_run]. rewrite (request_streaming m u Hch Hu).
    specialize (IH (with_ch0 (Some (streaming ((u + 1) mod BUFFER_SIZE)))
                      (with_ocb (elt (buffer m) u) m))
                   ((u + 1) mod BUFFER_SIZE) eq_refl).
    destruct (ldma_run n _) as [m' vs].
    destruct IH as (Hch' & Hbuf & Hvs); [apply Z.mod_pos_bound; zlia |].
    split; [| split].
    + rewrite Hch'. f_equal. f_equal. rewrite Zplus_mod_idemp_l. f_equal. lia.
    + exact Hbuf.
    + rewrite Hvs. cbn [buffer with_ch0 with_ocb].
      rewrite (seqZ_cons 0 (Z.of_nat (S n))) by lia. cbn [map].
      rewrite Z.add_0_r, (Z.mod_small u) by exact Hu. f_equal.
      replace (Z.pred (Z.of_nat (S n))) with (Z.of_nat n) by lia.
      change (Z.succ 0) with (1 + 0). rewrite <- (fmap_add_seqZ 1 0).
      change (Z.add 1 <$> seqZ 0 (Z.of_nat n)) with (map (Z.add 1) (seqZ 0 (Z.of_nat n))).
      rewrite map_map. apply map_ext. intros k.
      rewrite Zplus_mod_idemp_l. f_equal. f_equal. lia.
Qed.

(** *** The main loop *)

Lemma main_loop_run wakes m :
  main_loop wakes m = Halt m (repeat (Call EMU_EnterEM1) (S wakes)).
Proof.
  induction wakes as [| n IH]; cbn [main_loop].
  - destruct m; reflexivity.
  - erewrite bind_Ok by (unfold call; reflexivity).
    replace (match EMU_EnterEM1 with TIMER_TopSet _ | _ => m end) with m by reflexivity.
    rewrite IH. reflexivity.
Qed.

End TimerPwmDmaFacts.

(** * The claims *)

Section SpiSlaveClaims.
Import Exec ExecFacts SpiSlave SpiSlaveFacts.

(** C1 (as amended): invoked with [bufpos = p] and [p < BUFLEN], the receive
    handler returns having stored the byte read from USART1->RXDATA into
    [inbuf[p]] and incremented [bufpos] to [p + 1], and it writes
    [outbuf[p + 1]] to USART1->TXDATA if and only if [p + 1 < BUFLEN];
    otherwise it transmits nothing. *)
Theorem C1_handler_advance_step (m : machine) :
  well_sized m -> 0 <= bufpos m < BUFLEN -> advance_step m.
Proof.
  intros [_ Hin] Hp. unfold advance_step.
  exists (handler_post m), (handler_trace m).
  split; [apply handler_run; exact Hp |].
  split; [| split].
  - unfold handler_post; cbn [inbuf].
    apply elt_set_elt_eq. rewrite Hin. blia.
  - reflexivity.
  - apply tx_writes_handler_trace.
Qed.

Lemma C1_handler_advance_step_witness : advance_step mid_round.
Proof.
  apply C1_handler_advance_step.
  - split; reflexivity.
  - cbn [bufpos mid_round]. unfold BUFLEN. lia.
Defined.

(** C1 as stated, for every [p], fails at [p = BUFLEN]: the store to
    [inbuf[10]] lies outside the array, so the handler does not perform the
    step there. (At [p = 2^32 - 1] the increment moreover wraps [bufpos] to 0
    instead of [p + 1].) *)
Lemma C1_overrun_counterexample :
  well_sized after_last_byte /\ bufpos after_last_byte = BUFLEN /\
  USART1_RX_IRQHandler after_last_byte =
    Fault (OutOfBounds (Inbuf 10))
      [Call GPIO_PinOutSet; Load USART1_RXDATA 90; Load Bufpos 10; Store Bufpos 11] /\
  ~ advance_step after_last_byte /\
  In (Store Bufpos 0) (trace_of (USART1_RX_IRQHandler at_uint32_max)) /\
  ~ advance_step at_uint32_max.
Proof.
  assert (Hmax : USART1_RX_IRQHandler at_uint32_max =
    Fault (OutOfBounds (Inbuf (2 ^ 32 - 1)))
      [Call GPIO_PinOutSet; Load USART1_RXDATA 90; Load Bufpos (2 ^ 32 - 1);
       Store Bufpos 0]).
  { rewrite handler_overrun by (cbn [bufpos at_uint32_max]; blia). reflexivity. }
  assert (Hrun : USART1_RX_IRQHandler after_last_byte =
    Fault (OutOfBounds (Inbuf 10))
      [Call GPIO_PinOutSet; Load USART1_RXDATA 90; Load Bufpos 10; Store Bufpos 11])
    by reflexivity.
  split; [split; reflexivity |]. split; [reflexivity |].
  split; [exact Hrun |].
  split; [intros (m' & t & Hok & _); rewrite Hrun in Hok; discriminate Hok |].
  split; [rewrite Hmax; cbn; auto |].
  intros (m' & t & Hok & _). rewrite Hmax in Hok. discriminate Hok.
Qed.

(** C3: over one round of [main] (buffers set up, [bufpos = 0], [outbuf[0]]
    written to USART1->TXDATA, then the receive handler run once per received
    frame, [BUFLEN] frames in all, however they are spread over the sleeps),
    the values written to USART1->TXDATA are [outbuf[0], ..., outbuf[BUFLEN-1]]
    in this order, each once, and the i-th byte read from USART1->RXDATA is in
    [inbuf[i]] for every [i < BUFLEN]. *)
Theorem C3_transfer_round (m : machine) (batches : list (list Z)) :
  well_sized m ->
  length (concat batches) = Z.to_nat BUFLEN ->
  exists m' t,
    main_round (Some [IrqGpio]) (map (map IrqRx) batches) m = Ok tt m' t /\
    tx_writes t = map (elt (outbuf m')) (seqZ 0 BUFLEN) /\
    length (tx_writes t) = Z.to_nat BUFLEN /\
    outbuf m' = seqZ 0 BUFLEN /\
    (forall i, 0 <= i < BUFLEN -> elt (inbuf m') i = wrap8 (elt (concat batches) i)).
Proof.
  intros Hw Hlen.
  destruct (round_prepare_run m Hw) as (t1 & H1 & Htx1).
  destruct (round_start_run (prepared m)) as (t3 & H3 & Htx3); [cbn; blia |].
  cbn [prepared outbuf inbuf bufpos rxdata] in H3, Htx3.
  set (m2 := mkMachine (seqZ 0 BUFLEN) (replicate (Z.to_nat BUFLEN) 0) 0 (rxdata m)
               (elt (seqZ 0 BUFLEN) 0) false) in *.
  destruct (wait_run batches m2) as (t4 & H4 & Htx4); [cbn; lia | cbn; blia |].
  unfold main_round.
  erewrite bind_Ok by exact H1.
  erewrite bind_Ok by apply em1_gpio_run.
  erewrite bind_Ok by exact H3.
  erewrite bind_Ok by exact H4.
  rewrite round_finish_run. cbn [prefix].
  assert (Htx : tx_writes t4 = map (elt (seqZ 0 BUFLEN)) (seqZ 1 9)).
  { rewrite Htx4, tx_writes_rx_trace by (cbn; blia).
    cbn [bufpos outbuf m2]. f_equal. f_equal. blia. }
  eexists _, _. split; [reflexivity |].
  cbn [set_timepin outbuf inbuf]. rewrite outbuf_rx_post. cbn [outbuf m2].
  assert (Hall : tx_writes
            (t1 ++ [Call EMU_EnterEM1;
                    InIsr GPIO_ODD (Call (GPIO_IntClear (Z.shiftl 1 US1CS_PIN)))] ++
             t3 ++ t4 ++
             [Call GPIO_PinOutSet; Call USART_IntDisable;
              Call (GPIO_IntDisable (Z.shiftl 1 US1CS_PIN)); Call (USART_Enable false)])
          = map (elt (seqZ 0 BUFLEN)) (seqZ 0 BUFLEN)).
  { rewrite !tx_writes_app, Htx1, Htx3, Htx. reflexivity. }
  split; [exact Hall |]. split; [rewrite Hall; reflexivity |]. split; [reflexivity |].
  intros i Hi. rewrite inbuf_rx_post; cbn [bufpos inbuf m2].
  - rewrite Z.sub_0_r.
    replace ((0 <=? i) && (i <? 0 + Z.of_nat (length (concat batches)))) with true;
      [reflexivity |].
    symmetry. apply andb_true_iff. split; [apply Z.leb_le | apply Z.ltb_lt]; blia.
  - lia.
  - rewrite length_replicate. blia.
  - lia.
Qed.

Lemma C3_transfer_round_witness :
  exists m' t,
    main_round (Some [IrqGpio])
      (map (map IrqRx) [[100; 101; 102]; []; [103; 104; 105; 106; 107; 108]; [109]])
      mid_round = Ok tt m' t /\
    tx_writes t = map (elt (outbuf m')) (seqZ 0 BUFLEN) /\
    length (tx_writes t) = Z.to_nat BUFLEN /\
    outbuf m' = seqZ 0 BUFLEN /\
    (forall i, 0 <= i < BUFLEN ->
       elt (inbuf m') i =
         wrap8 (elt (concat [[100; 101; 102]; []; [103; 104; 105; 106; 107; 108]; [109]]) i)).
Proof.
  apply (C3_transfer_round mid_round
           [[100; 101; 102]; []; [103; 104; 105; 106; 107; 108]; [109]]).
  - split; reflexivity.
  - reflexivity.
Defined.

(** C9: invoked with [bufpos = p < BUFLEN], the receive handler leaves
    everything as it was except [inbuf[p]], [bufpos], USART1->TXDATA and the
    activity pin: [outbuf] is not modified and every [inbuf[j]] with [j <> p]
    keeps its value. *)
Theorem C9_handler_frame (m : machine) :
  0 <= bufpos m < BUFLEN ->
  exists m' t,
    USART1_RX_IRQHandler m = Ok tt m' t /\
    outbuf m' = outbuf m /\
    rxdata m' = rxdata m /\
    length (inbuf m') = length (inbuf m) /\
    (forall j : nat, j <> Z.to_nat (bufpos m) -> inbuf m' !! j = inbuf m !! j) /\
    Forall (fun e => match e with
                     | Store c _ => c = Inbuf (bufpos m) \/ c = Bufpos \/ c = USART1_TXDATA
                     | Call f => f = GPIO_PinOutSet \/ f = GPIO_PinOutClear
                     | Load _ _ => True
                     | InIsr _ _ => False
                     end) t.
Proof.
  intros Hp. exists (handler_post m), (handler_trace m).
  split; [apply handler_run; exact Hp |].
  unfold handler_post, handler_trace. cbn [outbuf rxdata inbuf].
  split; [reflexivity |]. split; [reflexivity |].
  split; [apply length_set_elt |].
  split.
  - intros j Hj. unfold set_elt. apply list_lookup_insert_ne. congruence.
  - destruct (bufpos m + 1 <? BUFLEN); cbn [app];
      repeat (apply Forall_cons_2; [cbn; auto |]); apply Forall_nil_2.
Qed.

Lemma C9_handler_frame_witness :
  exists m' t,
    USART1_RX_IRQHandler mid_round = Ok tt m' t /\
    outbuf m' = outbuf mid_round /\
    rxdata m' = rxdata mid_round /\
    length (inbuf m') = length (inbuf mid_round) /\
    (forall j : nat, j <> Z.to_nat (bufpos mid_round) -> inbuf m' !! j = inbuf mid_round !! j) /\
    Forall (fun e => match e with
                     | Store c _ => c = Inbuf (bufpos mid_round) \/ c = Bufpos \/ c = USART1_TXDATA
                     | Call f => f = GPIO_PinOutSet \/ f = GPIO_PinOutClear
                     | Load _ _ => True
                     | InIsr _ _ => False
                     end) t.
Proof.
  apply (C9_handler_frame mid_round). cbn [bufpos mid_round]. unfold BUFLEN. lia.
Defined.

(** C8: in the SPI-slave example [main] and the handlers share one scalar.
    The wait loop itself reads only [bufpos] and stores nothing; in every run
    of [main], whatever interrupts arrive, a store to [bufpos] is either the
    receive handler's, which stores the value it read plus one, or [main]'s
    reset to 0; every store of [main] to [bufpos] is made while the USART is
    disabled, before [USART_Enable(USART1, usartEnable)] opens a transfer
    round, and none during a round; and a variable that a handler writes and
    [main] reads is [bufpos]. *)
Theorem C8_single_shared_scalar
    (rounds : list (option (list irq) * list (list irq)))
    (script : list (list irq)) (m : machine) :
  (forall c v, In (Load c v) (trace_of (wait_all_received script m)) -> c = Bufpos) /\
  (forall c v, ~ In (Store c v) (trace_of (wait_all_received script m))) /\
  (forall e v, In e (trace_of (main rounds m)) -> bare e = Store Bufpos v ->
     e = InIsr USART1_RX (Store Bufpos v) \/ e = Store Bufpos 0) /\
  resets_before_round false (trace_of (main rounds m)) /\
  In (Store Bufpos (wrap32 (bufpos m + 1))) (trace_of (USART1_RX_IRQHandler m)) /\
  (forall h c v c' v',
     In (InIsr h (Store c v)) (trace_of (main rounds m)) ->
     In (Load c' v') (trace_of (main rounds m)) ->
     var_of c = var_of c' -> var_of c = V_bufpos).
Proof.
  pose proof (main_emits_sharing rounds m) as Hall.
  rewrite List.Forall_forall in Hall.
  split; [| split; [| split; [| split; [| split]]]].
  - intros c v Hin.
    pose proof (wait_emits_wait script m) as Hw. rewrite List.Forall_forall in Hw.
    exact (Hw _ Hin).
  - intros c v Hin.
    pose proof (wait_emits_wait script m) as Hw. rewrite List.Forall_forall in Hw.
    exact (Hw _ Hin).
  - intros e v Hin Hbare. specialize (Hall e Hin). clear Hin.
    destruct e as [c w | c w | f | h e']; cbn in Hbare; try discriminate Hbare.
    + injection Hbare as -> ->. right. destruct Hall as [Hne | ->]; [| reflexivity].
      exfalso. apply Hne. reflexivity.
    + destruct h; cbn in Hall.
      * destruct Hall as [f ->]. discriminate Hbare.
      * destruct e' as [c w | c w | f | h' e'']; cbn in Hbare; try discriminate Hbare;
          [| destruct Hall].
        injection Hbare as -> ->. left. reflexivity.
  - apply (keeps_main rounds m).
  - destruct (Z_le_dec 0 (bufpos m)) as [H0 |]; [destruct (Z_lt_dec (bufpos m) BUFLEN) |].
    + rewrite handler_run by lia. cbn [trace_of]. unfold handler_trace.
      rewrite wrap32_small by blia. cbn. auto.
    + rewrite handler_overrun by lia. cbn. auto.
    + rewrite handler_overrun by lia. cbn. auto.
  - intros h c v c' v' Hst Hld Heq.
    pose proof (Hall _ Hst) as Hs. pose proof (Hall _ Hld) as Hl.
    clear Hall Hst Hld. cbn in Hl. destruct h; cbn in Hs.
    + destruct Hs as [f Hf]. discriminate Hf.
    + destruct Hs as [Hs | [Hs | Hs]]; [| exact Hs |];
        destruct Hl as [Hl | Hl]; congruence.
Qed.

End SpiSlaveClaims.

Section TimerPwmDmaClaims.
Import Exec ExecFacts TimerPwmDma TimerPwmDmaFacts.

(** C4 as stated fails: started by [main] on the machine out of reset, the
    channel has not stopped after its [BUFFER_SIZE] unit transfers; the
    descriptor links to itself and the next [BUFFER_SIZE] requests move the
    buffer again. *)
Lemma C4_one_shot_counterexample :
  exists m1 t,
    main_init at_reset = Ok tt m1 t /\
    next_descriptor pwm_descriptor = Some pwm_descriptor /\
    ldma_ch0 m1 = Some (streaming 0) /\
    channel_stopped (fst (ldma_run (Z.to_nat BUFFER_SIZE) m1)) = false /\
    snd (ldma_run (2 * Z.to_nat BUFFER_SIZE) m1) = buffer m1 ++ buffer m1 /\
    ~ stops_after_buffer m1.
Proof.
  eexists _, _. split; [vm_compute; reflexivity |].
  split; [reflexivity |]. split; [reflexivity |].
  split; [vm_compute; reflexivity |]. split; [vm_compute; reflexivity |].
  unfold stops_after_buffer. vm_compute. discriminate.
Qed.

(** C4 (as amended): the descriptor set up by [initLdma] links to itself
    (relative link, jump 0). After its [BUFFER_SIZE] unit transfers the channel
    loads the same descriptor again: it never stops, and the n-th request
    moves [buffer[n mod BUFFER_SIZE]] to TIMER0->CC[0].OCB. *)
Theorem C4_descriptor_links_to_itself (m : machine) (n : nat) :
  exists m1 t c,
    initLdma m = Ok tt m1 t /\
    ldma_ch0 m1 = Some c /\
    link (ch_desc c) = 1 /\
    next_descriptor (ch_desc c) = Some (ch_desc c) /\
    channel_stopped (fst (ldma_run n m1)) = false /\
    snd (ldma_run n m1) =
      map (fun k => elt (buffer m) (k mod BUFFER_SIZE)) (seqZ 0 (Z.of_nat n)).
Proof.
  eexists _, _, (streaming 0). split; [apply initLdma_run |].
  split; [reflexivity |]. split; [reflexivity |]. split; [reflexivity |].
  pose proof (run_streaming n (with_ch0 (Some (streaming 0)) m) 0 eq_refl) as Hrun.
  destruct (ldma_run n _) as [m' moved]. cbn [fst snd].
  destruct Hrun as (Hch & _ & Hmoved); [zlia |].
  split.
  - unfold channel_stopped. rewrite Hch. reflexivity.
  - rewrite Hmoved. reflexivity.
Qed.

(** C6: [initLdma] starts LDMA channel 0 with a transfer from the memory array
    [buffer] to the peripheral register TIMER0->CC[0].OCB, triggered by the
    TIMER0_CC0 peripheral signal, in half-word units, [BUFFER_SIZE] (= 11) of
    them. *)
Theorem C6_initLdma_configuration (m : machine) :
  exists m1 cfg d,
    initLdma m = Ok tt m1 [Call LDMA_Init; Call (LDMA_StartTransfer 0 cfg d)] /\
    ldmaReqSel cfg = ldmaPeripheralSignal_TIMER0_CC0 /\
    srcAddr d = Addr_buffer /\ srcInc d = ldmaCtrlSrcIncOne /\
    dstAddr d = Addr_TIMER0_CC0_OCB /\ dstInc d = ldmaCtrlDstIncNone /\
    size d = ldmaCtrlSizeHalf /\
    xferCnt d + 1 = BUFFER_SIZE /\ BUFFER_SIZE = 11 /\
    ldma_ch0 m1 = Some (mkChannel cfg d BUFFER_SIZE 0 false) /\
    buffer m1 = buffer m /\
    snd (ldma_request ldmaPeripheralSignal_TIMER0_CC0 m1) = Some (elt (buffer m) 0) /\
    ocb (fst (ldma_request ldmaPeripheralSignal_TIMER0_CC0 m1)) = elt (buffer m) 0.
Proof.
  exists (with_ch0 (Some (streaming 0)) m), pwm_transfer_cfg, pwm_descriptor.
  split; [apply initLdma_run |].
  rewrite (request_streaming (with_ch0 (Some (streaming 0)) m) 0 eq_refl) by zlia.
  repeat split.
Qed.

(** C10: after [populateBuffer] with TIMER0 top value [T], [buffer[i]] is the
    low 16 bits of [T * dutyCyclePercentages[i] / 100] computed in 32 bits,
    for every [i < BUFFER_SIZE]; when [T < 2^16] and [T * 100 < 2^32] the
    entries are nondecreasing, [buffer[0] = 0], [buffer[BUFFER_SIZE-1] = T]
    and every entry is at most [T]. *)
Theorem C10_populateBuffer_values (m : machine) :
  length (buffer m) = Z.to_nat BUFFER_SIZE ->
  let T := wrap32 (top m) in
  exists m' t,
    populateBuffer m = Ok tt m' t /\
    (forall i, 0 <= i < BUFFER_SIZE ->
       elt (buffer m') i = wrap16 (wrap32 (T * elt dutyCyclePercentages i) / 100)) /\
    (T < 2 ^ 16 -> T * 100 < 2 ^ 32 ->
       (forall i j, 0 <= i <= j -> j < BUFFER_SIZE ->
          elt (buffer m') i <= elt (buffer m') j) /\
       elt (buffer m') 0 = 0 /\
       elt (buffer m') (BUFFER_SIZE - 1) = T /\
       (forall i, 0 <= i < BUFFER_SIZE -> 0 <= elt (buffer m') i <= T)).
Proof.
  intros Hlen T.
  destruct (populate_run m Hlen) as (t & Hrun). fold T in Hrun.
  eexists _, t. split; [exact Hrun |].
  cbn [buffer with_buffer].
  assert (Hval : forall i, 0 <= i < BUFFER_SIZE ->
            elt (map (duty_value T) dutyCyclePercentages) i =
              duty_value T (elt dutyCyclePercentages i)).
  { intros i Hi. apply elt_map. cbn [length dutyCyclePercentages]. zlia. }
  split; [exact Hval |].
  intros HT16 _.
  assert (HT : 0 <= T < 2 ^ 16).
  { split; [| exact HT16]. unfold T, wrap32. apply Z.mod_pos_bound. lia. }
  split; [| split; [| split]].
  - intros i j Hij Hj. rewrite !Hval by zlia. rewrite !duty_lookup by zlia.
    apply duty_value_mono; zlia.
  - rewrite Hval by zlia. rewrite duty_lookup by zlia.
    rewrite duty_value_small by lia. rewrite Z.mul_0_r. reflexivity.
  - rewrite Hval by zlia. rewrite duty_lookup by zlia.
    change (10 * (BUFFER_SIZE - 1)) with 100. apply duty_value_full. exact HT.
  - intros i Hi. rewrite Hval by zlia. rewrite duty_lookup by zlia. split.
    + rewrite duty_value_small by zlia. apply Z.div_pos; zlia.
    + apply duty_value_le; zlia.
Qed.

Lemma C10_populateBuffer_values_witness :
  let m := with_top 19000 at_reset in
  let T := wrap32 (top m) in
  exists m' t,
    populateBuffer m = Ok tt m' t /\
    (forall i, 0 <= i < BUFFER_SIZE ->
       elt (buffer m') i = wrap16 (wrap32 (T * elt dutyCyclePercentages i) / 100)) /\
    (T < 2 ^ 16 -> T * 100 < 2 ^ 32 ->
       (forall i j, 0 <= i <= j -> j < BUFFER_SIZE ->
          elt (buffer m') i <= elt (buffer m') j) /\
       elt (buffer m') 0 = 0 /\
       elt (buffer m') (BUFFER_SIZE - 1) = T /\
       (forall i, 0 <= i < BUFFER_SIZE -> 0 <= elt (buffer m') i <= T)).
Proof.
  apply (C10_populateBuffer_values (with_top 19000 at_reset)). reflexivity.
Defined.

End TimerPwmDmaClaims.

Section CrossClaims.
Import Exec ExecFacts.

(** C2: every array access of both programs stays inside its array. Invoked
    with [bufpos < BUFLEN], the receive handler returns, having accessed
    [inbuf[bufpos]] and, only if the incremented position is below [BUFLEN],
    [outbuf] at it; [main] accesses [outbuf[bufpos]] and, in its set-up loop,
    indices below [BUFLEN]; [populateBuffer] accesses [buffer[i]] and
    [dutyCyclePercentages[i]] for [i < BUFFER_SIZE] only. No run reaches an
    access outside an array. *)
Theorem C2_array_accesses_in_bounds (m : SpiSlave.machine) (tm : TimerPwmDma.machine) :
  0 <= SpiSlave.bufpos m < SpiSlave.BUFLEN ->
  (returns (SpiSlave.USART1_RX_IRQHandler m) = true /\
   Forall (fun c => SpiSlave.in_bounds c = true)
     (SpiSlave.array_accesses (trace_of (SpiSlave.USART1_RX_IRQHandler m)))) /\
  (returns (SpiSlave.round_start m) = true /\
   Forall (fun c => SpiSlave.in_bounds c = true)
     (SpiSlave.array_accesses (trace_of (SpiSlave.round_start m)))) /\
  (returns (SpiSlave.round_prepare m) = true /\
   Forall (fun c => SpiSlave.in_bounds c = true)
     (SpiSlave.array_accesses (trace_of (SpiSlave.round_prepare m)))) /\
  (returns (TimerPwmDma.populateBuffer tm) = true /\
   TimerPwmDma.array_accesses (trace_of (TimerPwmDma.populateBuffer tm)) =
     flat_map (fun i => [TimerPwmDma.DutyCyclePercentages i; TimerPwmDma.Buffer i])
       (seqZ 0 TimerPwmDma.BUFFER_SIZE) /\
   Forall (fun c => TimerPwmDma.in_bounds c = true)
     (TimerPwmDma.array_accesses (trace_of (TimerPwmDma.populateBuffer tm)))).
Proof.
  intros Hp. split; [| split; [| split]].
  - rewrite SpiSlaveFacts.handler_run by exact Hp. split; [reflexivity |].
    cbn [trace_of]. rewrite SpiSlaveFacts.handler_accesses.
    apply Forall_cons_2.
    + unfold SpiSlave.in_bounds. apply andb_true_iff.
      split; [apply Z.leb_le | apply Z.ltb_lt]; lia.
    + destruct (Z.ltb_spec (SpiSlave.bufpos m + 1) SpiSlave.BUFLEN) as [Hlt | Hge];
        [| apply Forall_nil_2].
      apply Forall_cons_2; [| apply Forall_nil_2].
      unfold SpiSlave.in_bounds. apply andb_true_iff.
      split; [apply Z.leb_le | apply Z.ltb_lt]; lia.
  - destruct (SpiSlaveFacts.round_start_accesses m Hp) as [Hret Hacc].
    split; [exact Hret |]. rewrite Hacc.
    apply Forall_cons_2; [| apply Forall_nil_2].
    unfold SpiSlave.in_bounds. apply andb_true_iff.
    split; [apply Z.leb_le | apply Z.ltb_lt]; lia.
  - destruct (SpiSlaveFacts.round_prepare_accesses m) as [Hret Hacc].
    split; [exact Hret |]. rewrite Hacc.
    apply List.Forall_forall. intros c Hc.
    apply in_flat_map in Hc. destruct Hc as (i & Hi & Hc).
    apply list_elem_of_In, elem_of_seqZ in Hi.
    unfold SpiSlave.in_bounds.
    destruct Hc as [<- | [<- | []]]; apply andb_true_iff;
      (split; [apply Z.leb_le | apply Z.ltb_lt]; lia).
  - destruct (TimerPwmDmaFacts.populate_accesses tm) as [Hret Hacc].
    split; [exact Hret |]. split; [exact Hacc |]. rewrite Hacc.
    apply List.Forall_forall. intros c Hc.
    apply in_flat_map in Hc. destruct Hc as (i & Hi & Hc).
    apply list_elem_of_In, elem_of_seqZ in Hi.
    unfold TimerPwmDma.in_bounds.
    destruct Hc as [<- | [<- | []]]; apply andb_true_iff;
      (split; [apply Z.leb_le | apply Z.ltb_lt]; lia).
Qed.

Lemma C2_array_accesses_in_bounds_witness :
  (returns (SpiSlave.USART1_RX_IRQHandler SpiSlave.mid_round) = true /\
   Forall (fun c => SpiSlave.in_bounds c = true)
     (SpiSlave.array_accesses (trace_of (SpiSlave.USART1_RX_IRQHandler SpiSlave.mid_round)))) /\
  (returns (SpiSlave.round_start SpiSlave.mid_round) = true /\
   Forall (fun c => SpiSlave.in_bounds c = true)
     (SpiSlave.array_accesses (trace_of (SpiSlave.round_start SpiSlave.mid_round)))) /\
  (returns (SpiSlave.round_prepare SpiSlave.mid_round) = true /\
   Forall (fun c => SpiSlave.in_bounds c = true)
     (SpiSlave.array_accesses (trace_of (SpiSlave.round_prepare SpiSlave.mid_round)))) /\
  (returns (TimerPwmDma.populateBuffer TimerPwmDma.at_reset) = true /\
   TimerPwmDma.array_accesses (trace_of (TimerPwmDma.populateBuffer TimerPwmDma.at_reset)) =
     flat_map (fun i => [TimerPwmDma.DutyCyclePercentages i; TimerPwmDma.Buffer i])
       (seqZ 0 TimerPwmDma.BUFFER_SIZE) /\
   Forall (fun c => TimerPwmDma.in_bounds c = true)
     (TimerPwmDma.array_accesses (trace_of (TimerPwmDma.populateBuffer TimerPwmDma.at_reset)))).
Proof.
  apply (C2_array_accesses_in_bounds SpiSlave.mid_round TimerPwmDma.at_reset).
  cbn [SpiSlave.bufpos SpiSlave.mid_round]. unfold SpiSlave.BUFLEN. lia.
Defined.



(** C5 (as amended): the timer example defines no interrupt handler and the
    SPI-slave example defines two, [GPIO_ODD_IRQHandler] and
    [USART1_RX_IRQHandler]; each file defines at most two. *)
Theorem C5_interrupt_handlers_per_file :
  Sources.interrupt_handlers Sources.spi_slave_interrupt =
    ["GPIO_ODD_IRQHandler"%string; "USART1_RX_IRQHandler"%string] /\
  Sources.interrupt_handlers Sources.timer_pwm_dma = [] /\
  Forall (fun file => (length (Sources.interrupt_handlers file) <= 2)%nat)
    [Sources.spi_slave_interrupt; Sources.timer_pwm_dma].
Proof.
  split; [reflexivity |]. split; [reflexivity |].
  repeat (apply Forall_cons_2; [vm_compute; lia |]). apply Forall_nil_2.
Qed.

(** C5 as stated fails: the SPI-slave source file defines two interrupt
    handlers. *)
Lemma C5_two_handlers_counterexample :
  length (Sources.interrupt_handlers Sources.spi_slave_interrupt) = 2%nat /\
  ~ Forall (fun file => (length (Sources.interrupt_handlers file) <= 1)%nat)
      [Sources.spi_slave_interrupt; Sources.timer_pwm_dma].
Proof.
  split; [reflexivity |].
  intros H. apply Forall_cons_1 in H as [H _]. vm_compute in H. lia.
Qed.

End CrossClaims.

(** * Further properties of the two programs *)

Module SpiSlaveRounds.
Import Exec ExecFacts SpiSlave SpiSlaveFacts.

Lemma dispatch_gpio_run m :
  dispatch IrqGpio m =
    Ok tt m [InIsr GPIO_ODD (Call (GPIO_IntClear (Z.shiftl 1 US1CS_PIN)))].
Proof. destruct m; reflexivity. Qed.

Lemma dispatch_rx_overrun r m :
  ~ (0 <= bufpos m < BUFLEN) ->
  dispatch (IrqRx r) m =
    Fault (OutOfBounds (Inbuf (bufpos m)))
      (map (InIsr USART1_RX)
         [Call GPIO_PinOutSet; Load USART1_RXDATA r; Load Bufpos (bufpos m);
          Store Bufpos (wrap32 (bufpos m + 1))]).
Proof.
  intros Hp. unfold dispatch, in_isr, bind, modify, relabel.
  rewrite handler_overrun by exact Hp. reflexivity.
Qed.

Lemma observe_prefix {A} t (r : result machine event fault A) :
  observe (prefix t r) = (fst (observe r), tx_writes t ++ snd (observe r)).
Proof. destruct r; cbn [prefix observe fst snd]; rewrite tx_writes_app; reflexivity. Qed.

Lemma elt_replicate n i : elt (replicate n 0) i = 0.
Proof.
  unfold elt. destruct (replicate n 0 !! Z.to_nat i) as [x |] eqn:Hx; [| reflexivity].
  apply lookup_replicate in Hx. cbn. tauto.
Qed.

Lemma elt_seqZ n i : 0 <= i < n -> elt (seqZ 0 n) i = i.
Proof.
  intros Hi. unfold elt. rewrite lookup_seqZ_lt by lia. cbn. lia.
Qed.

Lemma well_sized_prepared m : well_sized (prepared m).
Proof. split; reflexivity. Qed.




End SpiSlaveRounds.

Section SpiSlaveExtras.
Import Exec ExecFacts SpiSlave SpiSlaveFacts SpiSlaveRounds.

(** X1: the set-up loop of a round erases what the previous round left: from
    any contents of the two arrays and any [bufpos], it returns with
    [inbuf[i] = 0] and [outbuf[i] = i] for every [i < BUFLEN], [bufpos = 0] and
    the activity pin low, and it writes nothing to USART1->TXDATA. *)
Theorem X1_round_prepare_resets (m : machine) :
  well_sized m ->
  exists m' t,
    round_prepare m = Ok tt m' t /\
    (forall i, 0 <= i < BUFLEN -> elt (inbuf m') i = 0 /\ elt (outbuf m') i = i) /\
    bufpos m' = 0 /\ timepin m' = false /\
    rxdata m' = rxdata m /\ txdata m' = txdata m /\
    tx_writes t = [].
Proof.
  intros Hw. destruct (round_prepare_run m Hw) as (t & Hrun & Htx).
  exists (prepared m), t. split; [exact Hrun |].
  split; [| repeat split; exact Htx].
  intros i Hi. cbn [prepared inbuf outbuf]. split.
  - apply elt_replicate.
  - apply elt_seqZ. exact Hi.
Qed.

Lemma X1_round_prepare_resets_witness :
  exists m' t,
    round_prepare three_received = Ok tt m' t /\
    (forall i, 0 <= i < BUFLEN -> elt (inbuf m') i = 0 /\ elt (outbuf m') i = i) /\
    bufpos m' = 0 /\ timepin m' = false /\
    rxdata m' = rxdata three_received /\ txdata m' = txdata three_received /\
    tx_writes t = [].
Proof. apply (X1_round_prepare_resets three_received). split; reflexivity. Defined.


(** X3: a burst of frames longer than the room left in the buffer overruns
    it: the handler runs of the burst end in the store to [inbuf[BUFLEN]],
    outside the array, after all of [outbuf] behind [bufpos] has been written
    to USART1->TXDATA. *)
Theorem X3_burst_overruns_inbuf (rs : list Z) (m : machine) :
  0 <= bufpos m <= BUFLEN ->
  BUFLEN < bufpos m + Z.of_nat (length rs) ->
  exists t,
    for_each (map IrqRx rs) dispatch m = Fault (OutOfBounds (Inbuf BUFLEN)) t /\
    tx_writes t =
      map (elt (outbuf m)) (seqZ (bufpos m + 1) (BUFLEN - 1 - bufpos m)).
Proof.
  revert m. induction rs as [| r rs IH]; intros m Hk Hlen.
  - blia.
  - cbn [map for_each].
    destruct (Z_lt_dec (bufpos m) BUFLEN) as [Hlt | Hge].
    + erewrite bind_Ok by (apply dispatch_rx_run; lia).
      destruct (IH (handler_post (write_cell USART1_RXDATA r m))) as (t & Hrun & Htx);
        [cbn; lia | cbn; blia |].
      rewrite Hrun. cbn [prefix]. eexists. split; [reflexivity |].
      rewrite tx_writes_app, tx_writes_in_isr, tx_writes_handler_trace, Htx.
      cbn [handler_post write_cell bufpos outbuf].
      destruct (Z.ltb_spec (bufpos m + 1) BUFLEN) as [Hlt' | Hge'].
      * rewrite (seqZ_cons (bufpos m + 1)) by blia. cbn [map app].
        f_equal. f_equal. f_equal; blia.
      * rewrite !seqZ_nil by blia. reflexivity.
    + assert (Heq : bufpos m = BUFLEN) by lia.
      unfold bind. rewrite dispatch_rx_overrun by lia. rewrite Heq.
      eexists. split; [reflexivity |].
      rewrite seqZ_nil by blia. reflexivity.
Qed.

Lemma X3_burst_overruns_inbuf_witness :
  exists t,
    for_each (map IrqRx [1; 2; 3; 4; 5; 6; 7; 8]) dispatch three_received =
      Fault (OutOfBounds (Inbuf BUFLEN)) t /\
    tx_writes t =
      map (elt (outbuf three_received))
        (seqZ (bufpos three_received + 1) (BUFLEN - 1 - bufpos three_received)).
Proof.
  apply (X3_burst_overruns_inbuf [1; 2; 3; 4; 5; 6; 7; 8] three_received).
  - cbn [bufpos three_received]. unfold BUFLEN. lia.
  - cbn [bufpos three_received length]. unfold BUFLEN. lia.
Defined.

(** X4: when the master stops before [BUFLEN] frames have arrived, the wait
    loop does not return: the core stays in EM1 with the frames received so
    far stored and [bufpos] below [BUFLEN]; there is no time-out. *)
Theorem X4_short_transfer_sleeps (bs : list (list Z)) (m : machine) :
  0 <= bufpos m ->
  bufpos m + Z.of_nat (length (concat bs)) < BUFLEN ->
  exists m' t,
    wait_all_received (map (map IrqRx) bs) m = Halt m' t /\
    bufpos m' = bufpos m + Z.of_nat (length (concat bs)) /\
    outbuf m' = outbuf m /\
    tx_writes t =
      map (elt (outbuf m)) (seqZ (bufpos m + 1) (Z.of_nat (length (concat bs)))) /\
    (length (inbuf m) = Z.to_nat BUFLEN ->
     forall i, bufpos m <= i < bufpos m' ->
       elt (inbuf m') i = wrap8 (elt (concat bs) (i - bufpos m))).
Proof.
  intros H0 Hlen.
  assert (Hrun : exists t,
            wait_all_received (map (map IrqRx) bs) m = Halt (rx_post (concat bs) m) t /\
            tx_writes t = tx_writes (rx_trace (concat bs) m)).
  { revert m H0 Hlen. induction bs as [| b bs IH]; intros m H0 Hlen.
    - cbn [map concat rx_post rx_trace wait_all_received].
      erewrite bind_Ok by (unfold load; reflexivity).
      cbv beta. cbn [read_cell].
      replace (bufpos m <? BUFLEN) with true by (symmetry; apply Z.ltb_lt; cbn in Hlen; lia).
      eexists. split; reflexivity.
    - cbn [map concat wait_all_received]. cbn [concat] in Hlen.
      rewrite length_app in Hlen.
      erewrite bind_Ok by (unfold load; reflexivity).
      cbv beta. cbn [read_cell].
      replace (bufpos m <? BUFLEN) with true by (symmetry; apply Z.ltb_lt; lia).
      erewrite bind_Ok by (apply em1_rx_run; lia).
      destruct (IH (rx_post b m)) as (t & Hrun & Htx).
      { rewrite bufpos_rx_post. lia. }
      { rewrite bufpos_rx_post. lia. }
      rewrite Hrun. rewrite rx_post_app, rx_trace_app.
      eexists. split; [reflexivity |].
      rewrite !tx_writes_app, Htx. reflexivity. }
  destruct Hrun as (t & Hrun & Htx).
  exists (rx_post (concat bs) m), t. split; [exact Hrun |].
  split; [apply bufpos_rx_post |]. split; [apply outbuf_rx_post |].
  split.
  - rewrite Htx, tx_writes_rx_trace by lia. f_equal. f_equal. blia.
  - intros Hin i Hi. rewrite bufpos_rx_post in Hi.
    rewrite inbuf_rx_post by (try rewrite Hin; blia).
    replace ((bufpos m <=? i) && (i <? bufpos m + Z.of_nat (length (concat bs))))
      with true; [reflexivity |].
    symmetry. apply andb_true_iff. split; [apply Z.leb_le | apply Z.ltb_lt]; lia.
Qed.

Lemma X4_short_transfer_sleeps_witness :
  exists m' t,
    wait_all_received (map (map IrqRx) [[1; 2]; []; [3]]) three_received = Halt m' t /\
    bufpos m' = bufpos three_received + Z.of_nat (length (concat [[1; 2]; []; [3]])) /\
    outbuf m' = outbuf three_received /\
    tx_writes t =
      map (elt (outbuf three_received))
        (seqZ (bufpos three_received + 1) (Z.of_nat (length (concat [[1; 2]; []; [3]])))) /\
    (length (inbuf three_received) = Z.to_nat BUFLEN ->
     forall i, bufpos three_received <= i < bufpos m' ->
       elt (inbuf m') i = wrap8 (elt (concat [[1; 2]; []; [3]]) (i - bufpos three_received))).
Proof.
  apply (X4_short_transfer_sleeps [[1; 2]; []; [3]] three_received).
  - cbn [bufpos three_received]. lia.
  - cbn [bufpos three_received]. unfold BUFLEN. cbn. lia.
Defined.

(** X5: chip-select interrupts do not disturb a transfer. Served anywhere
    among received frames, the GPIO handler changes no variable: the run of
    the handlers ends the same way, in the same machine and with the same
    bytes written to USART1->TXDATA, as with the received frames alone. *)
Theorem X5_gpio_interrupts_neutral (qs : list irq) (m : machine) :
  observe (for_each qs dispatch m) =
  observe (for_each (map IrqRx (rx_frames qs)) dispatch m).
Proof.
  revert m. induction qs as [| q qs IH]; intros m.
  - reflexivity.
  - destruct q as [| r].
    + change (rx_frames (IrqGpio :: qs)) with (rx_frames qs).
      cbn [for_each]. erewrite bind_Ok by apply dispatch_gpio_run.
      rewrite observe_prefix, IH.
      destruct (observe _) as [o tx]. reflexivity.
    + change (rx_frames (IrqRx r :: qs)) with (r :: rx_frames qs).
      cbn [map for_each]. unfold bind.
      destruct (dispatch (IrqRx r) m) as [[] m1 t | f t | m1 t]; [| reflexivity | reflexivity].
      rewrite !observe_prefix, IH. reflexivity.
Qed.



End SpiSlaveExtras.

Module TimerPwmDmaRuns.
Import Exec ExecFacts TimerPwmDma TimerPwmDmaFacts.

Lemma top_value_small clk :
  wrap32 (wrap32 clk / PWM_FREQ) = wrap32 clk / PWM_FREQ.
Proof.
  unfold wrap32, PWM_FREQ.
  pose proof (Z.mod_pos_bound clk (2 ^ 32) ltac:(lia)) as Hc.
  apply Z.mod_small. split.
  - apply Z.div_pos; lia.
  - apply Z.div_lt_upper_bound; lia.
Qed.

Lemma initTimer_run m :
  initTimer m =
    Ok tt (with_top (wrap32 (timer0_clock m) / PWM_FREQ) m)
      [Call TIMER_Init; Call Set_GPIO_TIMERROUTE0_ROUTEEN;
       Call Set_GPIO_TIMERROUTE0_CC0ROUTE; Call TIMER_InitCC;
       Call CMU_ClockFreqGet_TIMER0;
       Call (TIMER_TopSet (wrap32 (timer0_clock m) / PWM_FREQ));
       Call TIMER_Enable; Call TIMER_IntEnable].
Proof.
  destruct m as [buf clk T0 reg ch]. unfold initTimer, call_CMU_ClockFreqGet.
  cbv -[wrap32 Z.div PWM_FREQ]. rewrite top_value_small. reflexivity.
Qed.

(** the machine [main] has set up when it enters its loop *)
Lemma timer_main_init_run m :
  length (buffer m) = Z.to_nat BUFFER_SIZE ->
  exists t,
    main_init m =
      Ok tt (mkMachine (map (duty_value (wrap32 (timer0_clock m) / PWM_FREQ))
                          dutyCyclePercentages)
               (timer0_clock m) (wrap32 (timer0_clock m) / PWM_FREQ) (ocb m)
               (Some (streaming 0))) t.
Proof.
  intros Hlen.
  destruct (populate_run (with_top (wrap32 (timer0_clock m) / PWM_FREQ) m) Hlen)
    as (tp & Hp).
  cbn [top with_top] in Hp. rewrite top_value_small in Hp.
  unfold main_init.
  erewrite bind_Ok by (unfold call; reflexivity).
  erewrite bind_Ok by (unfold initCmu, bind, call; reflexivity).
  erewrite bind_Ok by (unfold initGpio, call; reflexivity).
  erewrite bind_Ok by apply initTimer_run.
  erewrite bind_Ok by exact Hp.
  rewrite initLdma_run. cbn [prefix].
  eexists. destruct m; reflexivity.
Qed.

Lemma duty_entry T i :
  0 <= i < BUFFER_SIZE ->
  elt (map (duty_value T) dutyCyclePercentages) i = duty_value T (10 * i).
Proof.
  intros Hi. rewrite elt_map by (cbn [length dutyCyclePercentages]; zlia).
  rewrite duty_lookup by exact Hi. reflexivity.
Qed.

Lemma run_streaming_ocb n :
  forall m u,
    ldma_ch0 m = Some (streaming u) -> 0 <= u < BUFFER_SIZE ->
    ocb (fst (ldma_run (S n) m)) = elt (buffer m) ((u + Z.of_nat n) mod BUFFER_SIZE).
Proof.
  induction n as [| n IH]; intros m u Hch Hu.
  - cbn [ldma_run]. rewrite (request_streaming m u Hch Hu). cbn [fst ocb with_ch0 with_ocb].
    rewrite Z.add_0_r, Z.mod_small by exact Hu. reflexivity.
  - change (ldma_run (S (S n)) m)
      with (let '(m1, moved) := ldma_request ldmaPeripheralSignal_TIMER0_CC0 m in
            let '(m2, vs) := ldma_run (S n) m1 in
            (m2, match moved with Some v => v :: vs | None => vs end)).
    rewrite (request_streaming m u Hch Hu).
    specialize (IH (with_ch0 (Some (streaming ((u + 1) mod BUFFER_SIZE)))
                      (with_ocb (elt (buffer m) u) m))
                   ((u + 1) mod BUFFER_SIZE) eq_refl).
    destruct (ldma_run (S n) _) as [m2 vs]. cbn [fst] in IH |- *.
    rewrite IH by (apply Z.mod_pos_bound; zlia).
    cbn [buffer with_ch0 with_ocb]. rewrite Zplus_mod_idemp_l. f_equal. f_equal. lia.
Qed.

End TimerPwmDmaRuns.

Section TimerPwmDmaExtras.
Import Exec ExecFacts TimerPwmDma TimerPwmDmaFacts TimerPwmDmaRuns.

(** X7: [main] of the timer example never returns and never leaves an array.
    When the core goes to sleep, TIMER0's top value is the timer clock
    divided by [PWM_FREQ], [buffer[i]] holds the share [10 * i] percent of
    that top value (computed after the top value is set), LDMA channel 0 is
    loaded with all [BUFFER_SIZE] units to go, and nothing has been moved to
    TIMER0->CC[0].OCB yet. *)
Theorem X7_timer_main_sets_up_pwm (wakes : nat) (m : machine) :
  length (buffer m) = Z.to_nat BUFFER_SIZE ->
  let T := wrap32 (timer0_clock m) / PWM_FREQ in
  exists m' t,
    main wakes m = Halt m' t /\
    top m' = T /\
    T * PWM_FREQ <= wrap32 (timer0_clock m) < (T + 1) * PWM_FREQ /\
    (forall i, 0 <= i < BUFFER_SIZE ->
       elt (buffer m') i = wrap16 (wrap32 (T * (10 * i)) / 100)) /\
    ldma_ch0 m' = Some (mkChannel pwm_transfer_cfg pwm_descriptor BUFFER_SIZE 0 false) /\
    ocb m' = ocb m.
Proof.
  intros Hlen T. destruct (timer_main_init_run m Hlen) as (t & Hrun). fold T in Hrun.
  unfold main. erewrite bind_Ok by exact Hrun. rewrite main_loop_run. cbn [prefix].
  eexists _, _. split; [reflexivity |]. cbn [top buffer ldma_ch0 ocb].
  split; [reflexivity |]. split.
  - unfold T, PWM_FREQ.
    pose proof (Z.mul_div_le (wrap32 (timer0_clock m)) 1000 ltac:(lia)).
    pose proof (Z.mul_succ_div_gt (wrap32 (timer0_clock m)) 1000 ltac:(lia)).
    lia.
  - split; [| split; reflexivity]. intros i Hi. apply duty_entry. exact Hi.
Qed.

Lemma X7_timer_main_sets_up_pwm_witness :
  let T := wrap32 (timer0_clock at_reset) / PWM_FREQ in
  exists m' t,
    main 2 at_reset = Halt m' t /\
    top m' = T /\
    T * PWM_FREQ <= wrap32 (timer0_clock at_reset) < (T + 1) * PWM_FREQ /\
    (forall i, 0 <= i < BUFFER_SIZE ->
       elt (buffer m') i = wrap16 (wrap32 (T * (10 * i)) / 100)) /\
    ldma_ch0 m' = Some (mkChannel pwm_transfer_cfg pwm_descriptor BUFFER_SIZE 0 false) /\
    ocb m' = ocb at_reset.
Proof. apply (X7_timer_main_sets_up_pwm 2 at_reset). reflexivity. Defined.

(** X8: what the start-up code and the channel deliver together. After the
    initialisations of [main], the n-th compare event moves the share
    [10 * (n mod BUFFER_SIZE)] percent of the top value to TIMER0->CC[0].OCB,
    which holds it afterwards, over and over; the channel reads inside
    [buffer] only, and with a top value below 2^16 no value moved exceeds the
    top value. *)
Theorem X8_pwm_duty_stream (n : nat) (m : machine) :
  length (buffer m) = Z.to_nat BUFFER_SIZE ->
  let T := wrap32 (timer0_clock m) / PWM_FREQ in
  exists m1 t,
    main_init m = Ok tt m1 t /\
    snd (ldma_run n m1) =
      map (fun k => duty_value T (10 * (k mod BUFFER_SIZE))) (seqZ 0 (Z.of_nat n)) /\
    ocb (fst (ldma_run (S n) m1)) = duty_value T (10 * (Z.of_nat n mod BUFFER_SIZE)) /\
    (exists c, ldma_ch0 (fst (ldma_run n m1)) = Some c /\
               ch_done c = false /\ 0 <= ch_unit c < BUFFER_SIZE) /\
    (T < 2 ^ 16 -> Forall (fun v => 0 <= v <= T) (snd (ldma_run n m1))).
Proof.
  intros Hlen T. destruct (timer_main_init_run m Hlen) as (t & Hrun). fold T in Hrun.
  eexists _, t. split; [exact Hrun |].
  match type of Hrun with _ = Ok _ ?x _ => set (m1 := x) end.
  pose proof (run_streaming n m1 0 eq_refl ltac:(zlia)) as Hs.
  pose proof (run_streaming_ocb n m1 0 eq_refl ltac:(zlia)) as Hocb.
  rewrite Z.add_0_l in Hocb. cbn [buffer m1] in Hocb.
  rewrite duty_entry in Hocb by (apply Z.mod_pos_bound; zlia).
  destruct (ldma_run n m1) as [m' moved]. cbn [fst snd].
  destruct Hs as (Hch & _ & Hmoved).
  assert (Hvals : moved =
            map (fun k => duty_value T (10 * (k mod BUFFER_SIZE))) (seqZ 0 (Z.of_nat n))).
  { rewrite Hmoved. apply map_ext. intros k. cbn [buffer m1].
    rewrite Z.add_0_l. apply duty_entry. apply Z.mod_pos_bound. zlia. }
  split; [exact Hvals |]. split; [exact Hocb |]. split.
  - eexists. split; [exact Hch |]. split; [reflexivity |].
    cbn [ch_unit streaming]. apply Z.mod_pos_bound. zlia.
  - intros HT. rewrite Hvals. apply Forall_map. apply Forall_forall. intros k _.
    assert (HT0 : 0 <= T).
    { unfold T, wrap32, PWM_FREQ. apply Z.div_pos; [| lia].
      apply Z.mod_pos_bound. lia. }
    pose proof (Z.mod_pos_bound k BUFFER_SIZE ltac:(zlia)) as Hk.
    cbn beta. split.
    + rewrite duty_value_small by zlia. apply Z.div_pos; nia.
    + apply duty_value_le; zlia.
Qed.

Lemma X8_pwm_duty_stream_witness :
  let T := wrap32 (timer0_clock at_reset) / PWM_FREQ in
  exists m1 t,
    main_init at_reset = Ok tt m1 t /\
    snd (ldma_run 25 m1) =
      map (fun k => duty_value T (10 * (k mod BUFFER_SIZE))) (seqZ 0 (Z.of_nat 25)) /\
    ocb (fst (ldma_run 26 m1)) = duty_value T (10 * (Z.of_nat 25 mod BUFFER_SIZE)) /\
    (exists c, ldma_ch0 (fst (ldma_run 25 m1)) = Some c /\
               ch_done c = false /\ 0 <= ch_unit c < BUFFER_SIZE) /\
    (T < 2 ^ 16 -> Forall (fun v => 0 <= v <= T) (snd (ldma_run 25 m1))).
Proof. apply (X8_pwm_duty_stream 25 at_reset). reflexivity. Defined.

(** X9: the [uint16_t] cast in [populateBuffer] cuts the entries when the top
    value needs more than 16 bits: with [T * 100 < 2^32] (no overflow of the
    product), the last entry, the 100 percent one, equals the top value [T]
    exactly when [T < 2^16], and is [T mod 2^16] in any case. *)
Theorem X9_full_duty_entry_truncated (m : machine) :
  length (buffer m) = Z.to_nat BUFFER_SIZE ->
  let T := wrap32 (top m) in
  T * 100 < 2 ^ 32 ->
  exists m' t,
    populateBuffer m = Ok tt m' t /\
    elt (buffer m') (BUFFER_SIZE - 1) = T mod 2 ^ 16 /\
    (elt (buffer m') (BUFFER_SIZE - 1) = T <-> T < 2 ^ 16).
Proof.
  intros Hlen T HT.
  destruct (populate_run m Hlen) as (t & Hrun). fold T in Hrun.
  eexists _, t. split; [exact Hrun |]. cbn [buffer with_buffer].
  assert (HT0 : 0 <= T) by (unfold T, wrap32; apply Z.mod_pos_bound; lia).
  assert (Hlast : elt (map (duty_value T) dutyCyclePercentages) (BUFFER_SIZE - 1)
                  = T mod 2 ^ 16).
  { rewrite duty_entry by zlia. change (10 * (BUFFER_SIZE - 1)) with 100.
    unfold duty_value, wrap16, wrap32.
    rewrite (Z.mod_small (T * 100)) by lia. rewrite Z.div_mul by lia. reflexivity. }
  split; [exact Hlast |]. rewrite Hlast. split.
  - intros Heq. rewrite <- Heq. apply Z.mod_pos_bound. lia.
  - intros Hlt. apply Z.mod_small. lia.
Qed.

Lemma X9_full_duty_entry_truncated_witness :
  let m := with_top 80000 at_reset in
  let T := wrap32 (top m) in
  exists m' t,
    populateBuffer m = Ok tt m' t /\
    elt (buffer m') (BUFFER_SIZE - 1) = T mod 2 ^ 16 /\
    (elt (buffer m') (BUFFER_SIZE - 1) = T <-> T < 2 ^ 16).
Proof.
  apply (X9_full_duty_entry_truncated (with_top 80000 at_reset)).
  - reflexivity.
  - vm_compute. reflexivity.
Defined.

End TimerPwmDmaExtras.
